(** * SSE relay and stream consumer of the GenAI app template

    A shallow embedding of the protocol core of the repository:

    - [Js], [Json]: the JavaScript string primitives and [JSON.parse] that
      the stream consumer calls;
    - [Consumer]: the read loop of [test_frontend_stream.mjs]
      (residual buffer, split on newline, one event per [data: ] line);
    - [Relay]: [DatabricksEndpointHandler.invoke_stream] and the
      [HttpTokenAuth] strategy of [docs/developer-guide.md];
    - [Navigation]: [handleNewChat] and [handleChatSelect] of
      [NavigationContext.tsx];
    - [Config]: [loadConfig], [getConfig], [resetConfig] of [config.ts];
    - [Folding]: the event-folding state machine of the chat view, whose
      source file is not part of the tree and is modelled from the
      specification;
    - [Wire]: the consumer's frames as inputs of the state machine;
    - [RelayMore], [NavigationMore], [Routes]: the other authentication
      strategy, [pathnameToTab], [handleChatIdChange], [fetchChats], the
      side bar's [localStorage], the chat routes of the Next.js server
      and the display name of the top bar.

    The definitions come first; the properties follow, one module for
    each module of definitions. *)

From Stdlib Require Import List String Ascii NArith Arith Bool Lia.
From Stdlib Require Import Strings.Byte.
Import ListNotations.

Set Warnings "-register-all".

(* ===================================================================== *)
(** ** JavaScript strings *)
(* ===================================================================== *)

Module Js.

(** A JavaScript string is a sequence of UTF-16 code units. *)
Abbreviation char16 := N (only parsing).
Abbreviation jsstring := (list N) (only parsing).

(** A string literal of the source, as code units. *)
Definition lit (s : string) : jsstring :=
  map N_of_ascii (list_ascii_of_string s).

(** The source texts contain double quotes; [q] reads an apostrophe as a
    double quote, so that JSON texts can be written down here. *)
Definition q (s : string) : string :=
  string_of_list_ascii
    (map (fun c => if Ascii.eqb c "'"%char then ascii_of_nat 34 else c)
         (list_ascii_of_string s)).

Definition LF : char16 := 10%N.

(** [a === b] on strings. *)
Fixpoint eqb (a b : jsstring) : bool :=
  match a, b with
  | [], [] => true
  | x :: a', y :: b' => N.eqb x y && eqb a' b'
  | _, _ => false
  end.

(** White space and line terminators of ECMAScript, as [trim] removes them. *)
Definition isWhiteSpace (c : char16) : bool :=
  ((9 <=? c) && (c <=? 13) || (c =? 32) || (c =? 160) || (c =? 5760)
   || (8192 <=? c) && (c <=? 8202) || (c =? 8232) || (c =? 8233)
   || (c =? 8239) || (c =? 8287) || (c =? 12288) || (c =? 65279))%N.

Fixpoint trimStart (s : jsstring) : jsstring :=
  match s with
  | [] => []
  | c :: r => if isWhiteSpace c then trimStart r else s
  end.

Definition trimEnd (s : jsstring) : jsstring := rev (trimStart (rev s)).

Definition trim (s : jsstring) : jsstring := trimEnd (trimStart s).

(** Truthiness of a string: the empty string is falsy. *)
Definition truthy (s : jsstring) : bool :=
  match s with [] => false | _ :: _ => true end.

Fixpoint startsWith (s p : jsstring) : bool :=
  match p, s with
  | [], _ => true
  | x :: p', y :: s' => N.eqb x y && startsWith s' p'
  | _ :: _, [] => false
  end.

(** [s.slice(n)] and [s.substring(0, n)] for a non-negative literal [n]. *)
Definition slice (s : jsstring) (n : nat) : jsstring := skipn n s.
Definition substring0 (s : jsstring) (n : nat) : jsstring := firstn n s.

(** [s.split(sep)] for a separator of one code unit: never empty. *)
Fixpoint split (s : jsstring) (sep : char16) : list jsstring :=
  match s with
  | [] => [[]]
  | c :: r =>
      if N.eqb c sep then [] :: split r sep
      else match split r sep with
           | [] => [[c]]
           | h :: t => (c :: h) :: t
           end
  end.

(** [a.pop()]: the array without its last element, and that element
    ([None] is [undefined], on the empty array). *)
Fixpoint pop {A : Type} (a : list A) : list A * option A :=
  match a with
  | [] => ([], None)
  | x :: r =>
      match r with
      | [] => ([], Some x)
      | _ :: _ => let (r', o) := pop r in (x :: r', o)
      end
  end.

(** [x || ''] for [x] a string or [undefined]. *)
Definition or_empty (x : option jsstring) : jsstring :=
  match x with
  | Some s => if truthy s then s else []
  | None => []
  end.

(** *** A streaming text decoder

    [new TextDecoder()] used with [{ stream: true }] is a transducer that
    consumes one byte at a time and keeps the bytes of an unfinished
    character in its state. *)
Class TextDecoder : Type := {
  dstate : Type;
  dinit : dstate;
  dstep : dstate -> byte -> dstate * jsstring
}.

(** One byte through the decoder, with the text decoded so far. *)
Definition feed `{TextDecoder} (acc : dstate * jsstring) (b : byte)
  : dstate * jsstring :=
  let (d', o) := dstep (fst acc) b in (d', snd acc ++ o).

(** [decoder.decode(value, { stream: true })] from the decoder state [d]:
    the state it is left in, and the text it returns. *)
Definition decode `{TextDecoder} (d : dstate) (value : list byte)
  : dstate * jsstring :=
  fold_left feed value (d, []).

(** The UTF-8 decoder of the Encoding Standard, which [TextDecoder]
    defaults to: an ill-formed sequence becomes U+FFFD, the byte that ended
    it is read again, and one leading byte order mark is dropped. *)
Record utf8_state := {
  code_point : N;
  bytes_seen : N;
  bytes_needed : N;
  lower_boundary : N;
  upper_boundary : N;
  bom_seen : bool
}.

Definition utf8_reset (bom : bool) : utf8_state :=
  {| code_point := 0; bytes_seen := 0; bytes_needed := 0;
     lower_boundary := 128; upper_boundary := 191; bom_seen := bom |}.

(** A byte read when no sequence is open. *)
Definition utf8_lead (bom : bool) (b : N) : utf8_state * list N :=
  (if b <=? 127 then (utf8_reset bom, [b])
   else if (194 <=? b) && (b <=? 223) then
     ({| code_point := N.land b 31; bytes_seen := 0; bytes_needed := 1;
         lower_boundary := 128; upper_boundary := 191; bom_seen := bom |}, [])
   else if (224 <=? b) && (b <=? 239) then
     ({| code_point := N.land b 15; bytes_seen := 0; bytes_needed := 2;
         lower_boundary := if b =? 224 then 160 else 128;
         upper_boundary := if b =? 237 then 159 else 191;
         bom_seen := bom |}, [])
   else if (240 <=? b) && (b <=? 244) then
     ({| code_point := N.land b 7; bytes_seen := 0; bytes_needed := 3;
         lower_boundary := if b =? 240 then 144 else 128;
         upper_boundary := if b =? 244 then 143 else 191;
         bom_seen := bom |}, [])
   else (utf8_reset bom, [65533]))%N.

Definition utf8_handler (st : utf8_state) (b : N) : utf8_state * list N :=
  (if bytes_needed st =? 0 then utf8_lead (bom_seen st) b
   else if (b <? lower_boundary st) || (upper_boundary st <? b) then
     let (st', out) := utf8_lead (bom_seen st) b in (st', 65533 :: out)
   else
     let cp := N.lor (N.shiftl (code_point st) 6) (N.land b 63) in
     if bytes_seen st + 1 =? bytes_needed st then (utf8_reset (bom_seen st), [cp])
     else ({| code_point := cp; bytes_seen := bytes_seen st + 1;
              bytes_needed := bytes_needed st;
              lower_boundary := 128; upper_boundary := 191;
              bom_seen := bom_seen st |}, []))%N.

(** A code point as UTF-16 code units. *)
Definition utf16 (cp : N) : jsstring :=
  (if cp <? 65536 then [cp]
   else [55296 + N.shiftr (cp - 65536) 10; 56320 + N.land (cp - 65536) 1023])%N.

Definition utf8_step (st : utf8_state) (b : byte) : utf8_state * jsstring :=
  let (st', cps) := utf8_handler st (Byte.to_N b) in
  match cps with
  | [] => (st', [])
  | c :: r =>
      let kept := if negb (bom_seen st') && N.eqb c 65279 then r else cps in
      ({| code_point := code_point st'; bytes_seen := bytes_seen st';
          bytes_needed := bytes_needed st';
          lower_boundary := lower_boundary st';
          upper_boundary := upper_boundary st'; bom_seen := true |},
       flat_map utf16 kept)
  end.

#[export] Instance utf8 : TextDecoder := {|
  dstate := utf8_state;
  dinit := utf8_reset false;
  dstep := utf8_step
|}.

(** The bytes of a text of the source, written in ASCII. *)
Definition bytes (s : string) : list byte := list_byte_of_string s.

End Js.

(* ===================================================================== *)
(** ** JSON values and [JSON.parse] *)
(* ===================================================================== *)

Module Json.
Import Js.

(** What [JSON.parse] returns. A number keeps its lexeme: the consumer
    only passes numbers on. An object keeps its members in the order of the
    text; a repeated key is looked up at its last occurrence. *)
Inductive json : Type :=
| JNull
| JBool (b : bool)
| JNumber (lexeme : jsstring)
| JString (s : jsstring)
| JArray (elements : list json)
| JObject (members : list (jsstring * json)).

(** A JavaScript value read off an event: [None] is [undefined]. *)
Definition jsval := option json.

Definition isJsonSpace (c : char16) : bool :=
  ((c =? 9) || (c =? 10) || (c =? 13) || (c =? 32))%N.

Fixpoint skip_ws (s : jsstring) : jsstring :=
  match s with
  | c :: r => if isJsonSpace c then skip_ws r else s
  | [] => []
  end.

Definition isDigit (c : char16) : bool := ((48 <=? c) && (c <=? 57))%N.

Fixpoint span_digits (s : jsstring) : jsstring * jsstring :=
  match s with
  | c :: r =>
      if isDigit c then let (d, r') := span_digits r in (c :: d, r')
      else ([], s)
  | [] => ([], [])
  end.

Definition hexval (c : char16) : option N :=
  (if (48 <=? c) && (c <=? 57) then Some (c - 48)
   else if (65 <=? c) && (c <=? 70) then Some (c - 55)
   else if (97 <=? c) && (c <=? 102) then Some (c - 87)
   else None)%N.

Definition hex4 (a b c d : char16) : option char16 :=
  match hexval a, hexval b, hexval c, hexval d with
  | Some x, Some y, Some z, Some w => Some (((x * 16 + y) * 16 + z) * 16 + w)%N
  | _, _, _, _ => None
  end.

(** The character that a one-letter escape stands for. *)
Definition unescape (e : char16) : option char16 :=
  (if e =? 34 then Some 34          (* quote *)
   else if e =? 92 then Some 92     (* backslash *)
   else if e =? 47 then Some 47     (* slash *)
   else if e =? 98 then Some 8      (* b *)
   else if e =? 102 then Some 12    (* f *)
   else if e =? 110 then Some 10    (* n *)
   else if e =? 114 then Some 13    (* r *)
   else if e =? 116 then Some 9     (* t *)
   else None)%N.

(** The characters of a string after its opening quote, up to the closing
    one. [acc] holds the decoded characters, last first. *)
Fixpoint parse_chars (s acc : jsstring) : option (jsstring * jsstring) :=
  match s with
  | [] => None
  | c :: r =>
      if (c =? 34)%N then Some (rev acc, r)
      else if (c =? 92)%N then
        match r with
        | [] => None
        | e :: r1 =>
            if (e =? 117)%N then
              match r1 with
              | h1 :: h2 :: h3 :: h4 :: r2 =>
                  match hex4 h1 h2 h3 h4 with
                  | Some u => parse_chars r2 (u :: acc)
                  | None => None
                  end
              | _ => None
              end
            else
              match unescape e with
              | Some x => parse_chars r1 (x :: acc)
              | None => None
              end
        end
      else if (c <? 32)%N then None
      else parse_chars r (c :: acc)
  end.

(** A number: an optional minus sign, an integer part without a leading
    zero, an optional fraction and an optional exponent. *)
Definition parse_int (s : jsstring) : option (jsstring * jsstring) :=
  match s with
  | [] => None
  | c :: r =>
      if (c =? 48)%N then Some ([c], r)
      else if isDigit c then let (d, r') := span_digits r in Some (c :: d, r')
      else None
  end.

Definition parse_frac (s : jsstring) : option (jsstring * jsstring) :=
  match s with
  | [] => Some ([], s)
  | c :: r =>
      if (c =? 46)%N then
        match span_digits r with
        | ([], _) => None
        | (d, r') => Some (c :: d, r')
        end
      else Some ([], s)
  end.

Definition parse_sign (s : jsstring) : jsstring * jsstring :=
  match s with
  | [] => ([], s)
  | x :: r => if ((x =? 43) || (x =? 45))%N then ([x], r) else ([], s)
  end.

Definition parse_exp (s : jsstring) : option (jsstring * jsstring) :=
  match s with
  | [] => Some ([], s)
  | e :: r =>
      if ((e =? 101) || (e =? 69))%N then
        let (sign, r1) := parse_sign r in
        match span_digits r1 with
        | ([], _) => None
        | (d, r') => Some (e :: sign ++ d, r')
        end
      else Some ([], s)
  end.

Definition parse_minus (s : jsstring) : jsstring * jsstring :=
  match s with
  | [] => ([], s)
  | c :: r => if (c =? 45)%N then ([c], r) else ([], s)
  end.

Definition parse_number (s : jsstring) : option (jsstring * jsstring) :=
  let (minus, r0) := parse_minus s in
  match parse_int r0 with
  | None => None
  | Some (i, r1) =>
      match parse_frac r1 with
      | None => None
      | Some (f, r2) =>
          match parse_exp r2 with
          | None => None
          | Some (e, r3) => Some (minus ++ i ++ f ++ e, r3)
          end
      end
  end.

Definition keyword (s : jsstring) (w : string) (v : json)
  : option (json * jsstring) :=
  if startsWith s (lit w) then Some (v, skipn (String.length w) s) else None.

(** Whether the text goes on with the character [c], after white space. *)
Definition next_is (s : jsstring) (c : char16) : option jsstring :=
  match skip_ws s with
  | [] => None
  | x :: r => if N.eqb x c then Some r else None
  end.

(** The elements of an array after the first bracket, with [value] to
    parse one of them; [g] bounds their number. *)
Fixpoint parse_elements (value : jsstring -> option (json * jsstring))
         (g : nat) (t : jsstring) (acc : list json)
  : option (json * jsstring) :=
  match g with
  | O => None
  | S g' =>
      match value t with
      | None => None
      | Some (v, t1) =>
          match next_is t1 44 with
          | Some t2 => parse_elements value g' t2 (v :: acc)
          | None =>
              match next_is t1 93 with
              | Some t2 => Some (JArray (rev (v :: acc)), t2)
              | None => None
              end
          end
      end
  end.

(** The members of an object after the first brace, likewise. *)
Fixpoint parse_members (value : jsstring -> option (json * jsstring))
         (g : nat) (t : jsstring) (acc : list (jsstring * json))
  : option (json * jsstring) :=
  match g with
  | O => None
  | S g' =>
      match next_is t 34 with
      | None => None
      | Some t0 =>
          match parse_chars t0 [] with
          | None => None
          | Some (k, t1) =>
              match next_is t1 58 with
              | None => None
              | Some t2 =>
                  match value t2 with
                  | None => None
                  | Some (v, t3) =>
                      match next_is t3 44 with
                      | Some t4 => parse_members value g' t4 ((k, v) :: acc)
                      | None =>
                          match next_is t3 125 with
                          | Some t4 => Some (JObject (rev ((k, v) :: acc)), t4)
                          | None => None
                          end
                      end
                  end
              end
          end
      end
  end.

(** One JSON value at the head of [s], and the text after it. The depth of
    nesting and the number of items of an array or object are bounded by
    [fuel]; [JSON_parse] gives more fuel than the text has characters,
    and more would change nothing ([parse_value_fuel] below). *)
Fixpoint parse_value (fuel : nat) (s : jsstring) : option (json * jsstring) :=
  match fuel with
  | O => None
  | S f =>
      match skip_ws s with
      | [] => None
      | c :: r =>
          if (c =? 34)%N then
            match parse_chars r [] with
            | Some (str, r') => Some (JString str, r')
            | None => None
            end
          else if (c =? 91)%N then
            match next_is r 93 with
            | Some r' => Some (JArray [], r')
            | None => parse_elements (parse_value f) f r []
            end
          else if (c =? 123)%N then
            match next_is r 125 with
            | Some r' => Some (JObject [], r')
            | None => parse_members (parse_value f) f r []
            end
          else if (c =? 45)%N || isDigit c then
            match parse_number (c :: r) with
            | Some (n, r') => Some (JNumber n, r')
            | None => None
            end
          else if (c =? 116)%N then keyword (c :: r) "true" (JBool true)
          else if (c =? 102)%N then keyword (c :: r) "false" (JBool false)
          else if (c =? 110)%N then keyword (c :: r) "null" JNull
          else None
      end
  end.

(** [JSON.parse(text)]: [None] when it throws a [SyntaxError]. *)
Definition JSON_parse (text : jsstring) : option json :=
  match parse_value (S (List.length text)) text with
  | Some (v, r) => match skip_ws r with [] => Some v | _ :: _ => None end
  | None => None
  end.

(** The last member of an object with a given key. *)
Fixpoint member (key : jsstring) (ms : list (jsstring * json)) : jsval :=
  match ms with
  | [] => None
  | (k, v) :: r =>
      match member key r with
      | Some v' => Some v'
      | None => if eqb k key then Some v else None
      end
  end.

(** The property access [event.key] for a key that no prototype defines:
    [inl tt] is the [TypeError] thrown when [event] is [null]. *)
Definition get_prop (event : json) (key : jsstring) : unit + jsval :=
  match event with
  | JNull => inl tt
  | JObject ms => inr (member key ms)
  | _ => inr None
  end.

(** [v === s] for a string literal [s]. *)
Definition is_string (v : jsval) (s : jsstring) : bool :=
  match v with
  | Some (JString t) => eqb t s
  | _ => false
  end.

End Json.

(* ===================================================================== *)
(** ** The stream consumer of [test_frontend_stream.mjs] *)
(* ===================================================================== *)

Module Consumer.
Import Js Json.

(** What the loop writes to the console for one line: the parsed event
    with its number, or the parse error with the first 100 characters of
    the payload. These are the frames the consumer yields. *)
Inductive log_entry : Type :=
| LogDelta (eventCount : nat) (delta : jsval)
| LogEvent (eventCount : nat) (type : jsval)
| LogError (data : jsstring).

Definition is_frame (e : log_entry) : bool :=
  match e with
  | LogError _ => false
  | _ => true
  end.

Definition DATA_PREFIX : jsstring := lit "data: ".
Definition DONE : jsstring := lit "[DONE]".
Definition DELTA_TYPE : jsstring := lit "response.output_text.delta".

(** The body of [for (const line of lines)], on the event counter and the
    console written so far. *)
Definition process_line (line : jsstring) (acc : nat * list log_entry)
  : nat * list log_entry :=
  let (eventCount, console) := acc in
  if negb (truthy (trim line)) then acc
  else if negb (startsWith line DATA_PREFIX) then acc
  else
    let data := trim (slice line 6) in
    if negb (truthy data) || eqb data DONE then acc
    else
      match JSON_parse data with
      | None => (eventCount, console ++ [LogError (substring0 data 100)])
      | Some event =>
          let eventCount := S eventCount in
          match get_prop event (lit "type") with
          | inl _ => (eventCount, console ++ [LogError (substring0 data 100)])
          | inr type =>
              if is_string type DELTA_TYPE then
                match get_prop event (lit "delta") with
                | inl _ =>
                    (eventCount, console ++ [LogError (substring0 data 100)])
                | inr delta => (eventCount, console ++ [LogDelta eventCount delta])
                end
              else (eventCount, console ++ [LogEvent eventCount type])
          end
      end.

Definition process_lines (lines : list jsstring) (acc : nat * list log_entry)
  : nat * list log_entry :=
  fold_left (fun a line => process_line line a) lines acc.

Section Loop.
Context `{TD : TextDecoder}.

(** The variables of [testStream] that the loop reads and writes. *)
Record state : Type := {
  decoder : dstate;
  buffer : jsstring;
  eventCount : nat;
  console : list log_entry
}.

Definition init : state :=
  {| decoder := dinit; buffer := []; eventCount := 0; console := [] |}.

(** One turn of the [while] loop on a chunk [value] that [reader.read()]
    returned with [done] false. *)
Definition on_chunk (st : state) (value : list byte) : state :=
  let (d, text) := decode (decoder st) value in
  let buffer0 := buffer st ++ text in
  let (lines, last) := pop (split buffer0 LF) in
  let (n, out) := process_lines lines (eventCount st, console st) in
  {| decoder := d; buffer := or_empty last; eventCount := n; console := out |}.

(** The loop over the chunks the reader delivers before it reports
    [done]. *)
Definition testStream (chunks : list (list byte)) : state :=
  fold_left on_chunk chunks init.

Definition frames (st : state) : list log_entry :=
  filter is_frame (console st).

End Loop.

(** *** Notions and sample data for the properties *)

(** The complete lines of a text and the segment after its last newline,
    computed in one pass. *)
Fixpoint cut (s : jsstring) : list jsstring * jsstring :=
  match s with
  | [] => ([], [])
  | c :: r =>
      let (ls, rest) := cut r in
      if N.eqb c LF then ([] :: ls, rest)
      else match ls with
           | [] => ([], c :: rest)
           | h :: t => ((c :: h) :: t, rest)
           end
  end.

Definition no_newline (l : jsstring) : bool :=
  forallb (fun c => negb (N.eqb c LF)) l.

(** The text of a sequence of lines, each closed by one newline. *)
Definition unlines (ls : list jsstring) : jsstring :=
  flat_map (fun l => l ++ [LF]) ls.

(** A stream of two events and a malformed line, read whole, byte by
    byte, and cut in the middle of a multi-byte character. *)
Definition sample : list byte :=
  bytes (q "data: {'type':'response.output_text.delta','delta':'caf")
  ++ [xc3; xa9] ++ bytes (q "'}") ++ [x0a; x0a]
  ++ bytes (q "data: {oops") ++ [x0a; x0a]
  ++ bytes (q "data: {'type':'response.completed'}") ++ [x0a; x0a].

Definition sample_frames : list log_entry :=
  [LogDelta 1 (Some (JString (lit "caf" ++ [233%N])));
   LogEvent 2 (Some (JString (lit "response.completed")))].

(** A complete [data: ] line whose trimmed payload is the done sentinel. *)
Definition is_done_line (line : jsstring) : bool :=
  startsWith line DATA_PREFIX && eqb (trim (slice line 6)) DONE.

Definition frames_of (acc : nat * list log_entry) : list log_entry :=
  filter is_frame (snd acc).

(** What it would mean for the consumer to stop at the sentinel: the lines
    after a done line add no frame. *)
Definition yields_nothing_after_done (lines : list jsstring) : Prop :=
  forall pre l post,
    lines = pre ++ l :: post -> is_done_line l = true ->
    frames_of (process_lines lines (0, [])) =
    frames_of (process_lines (pre ++ [l]) (0, [])).

(** The delta that a line carries: a [data: ] line whose payload parses
    to an object of type [response.output_text.delta]. *)
Definition delta_of (line : jsstring) : option jsval :=
  if startsWith line DATA_PREFIX then
    match JSON_parse (trim (slice line 6)) with
    | Some (JObject ms) =>
        if is_string (member (lit "type") ms) DELTA_TYPE
        then Some (member (lit "delta") ms) else None
    | _ => None
    end
  else None.

(** A line whose payload [JSON.parse] rejects. *)
Definition undecodable (line : jsstring) : Prop :=
  JSON_parse (trim (slice line 6)) = None.

Definition hello_line : jsstring :=
  lit (q "data: {'type':'response.output_text.delta','delta':'Hello'}").
Definition broken_line : jsstring :=
  lit (q "data: {'type':'response.output_text.delta','delta':").
Definition world_line : jsstring :=
  lit (q "data: {'type':'response.output_text.delta','delta':'world'}").

Definition broken_stream : list byte :=
  bytes (q "data: {'type':'response.output_text.delta','delta':'Hello'}")
  ++ [x0a; x0a]
  ++ bytes (q "data: {'type':'response.output_text.delta','delta':")
  ++ [x0a; x0a]
  ++ bytes (q "data: {'type':'response.output_text.delta','delta':'world'}")
  ++ [x0a; x0a].

End Consumer.

(* ===================================================================== *)
(** ** The relay: [DatabricksEndpointHandler.invoke_stream] *)
(* ===================================================================== *)

Module Relay.
Local Open Scope string_scope.

(** *** [server/auth/databricks_auth.py] and [HttpTokenAuth] *)

(** The environment variables the relay reads; [None] is an unset one. *)
Record environ : Type := {
  ENV : option string;
  DATABRICKS_HOST : option string;
  DATABRICKS_TOKEN : option string
}.

(** A request, as far as the relay looks at it: its headers, with
    lower-case names. *)
Record Request : Type := { headers : list (string * string) }.

Inductive exn : Type :=
| ValueError (msg : string)
| ConnectError
| TimeoutException
| ReadError.

Definition getenv (v : option string) (default : string) : string :=
  match v with Some s => s | None => default end.

Fixpoint headers_get (h : list (string * string)) (name : string)
  : option string :=
  match h with
  | [] => None
  | (k, v) :: r => if String.eqb k name then Some v else headers_get r name
  end.

Definition is_local_development (env : environ) : bool :=
  String.eqb (getenv (ENV env) "production") "development".

Definition get_databricks_host (env : environ) : exn + string :=
  let host := getenv (DATABRICKS_HOST env) "" in
  if String.eqb host "" then inl (ValueError "DATABRICKS_HOST must be set")
  else if negb (String.prefix "https://" host) then inr ("https://" ++ host)
  else inr host.

Definition get_user_token_from_request (request : Request) : exn + string :=
  match headers_get (headers request) "x-forwarded-access-token" with
  | None => inl (ValueError "No X-Forwarded-Access-Token header found")
  | Some token =>
      if String.eqb token ""
      then inl (ValueError "No X-Forwarded-Access-Token header found")
      else inr token
  end.

Definition get_dev_token (env : environ) : exn + string :=
  let token := getenv (DATABRICKS_TOKEN env) "" in
  if String.eqb token ""
  then inl (ValueError "DATABRICKS_TOKEN must be set for development")
  else inr token.

(** [HttpTokenAuth.get_credentials]: the host and the bearer token. *)
Definition get_credentials (env : environ) (request : Request)
  : exn + (string * string) :=
  match get_databricks_host env with
  | inl e => inl e
  | inr host =>
      match (if is_local_development env then get_dev_token env
             else get_user_token_from_request request) with
      | inl e => inl e
      | inr token => inr (host, token)
      end
  end.

(** *** [json.dumps] of the first event *)

Definition dquote : string := String (ascii_of_nat 34) "".
Definition backslash : string := String (ascii_of_nat 92) "".

Definition hex_digit (n : nat) : ascii :=
  ascii_of_nat (if n <? 10 then 48 + n else 87 + n)%nat.

(** One character of a string under [json.dumps], which escapes the
    quote, the backslash and every character outside [' '..'~']. *)
Definition dumps_char (c : ascii) : string :=
  let n := nat_of_ascii c in
  if (n =? 34)%nat then backslash ++ dquote
  else if (n =? 92)%nat then backslash ++ backslash
  else if (n =? 10)%nat then backslash ++ "n"
  else if (n =? 13)%nat then backslash ++ "r"
  else if (n =? 9)%nat then backslash ++ "t"
  else if (n =? 12)%nat then backslash ++ "f"
  else if (n =? 8)%nat then backslash ++ "b"
  else if ((32 <=? n) && (n <=? 126))%nat then String c ""
  else backslash ++ "u00"
       ++ String (hex_digit (n / 16)) (String (hex_digit (n mod 16)) "").

Fixpoint dumps_chars (s : string) : string :=
  match s with
  | EmptyString => ""
  | String c r => dumps_char c ++ dumps_chars r
  end.

Definition dumps_str (s : string) : string :=
  dquote ++ dumps_chars s ++ dquote.

(** The end of a frame as the source writes it: a backslash, an [n], a
    backslash, an [n]. *)
Definition FRAME_END : string := "\n\n".

(** The frame of the first [yield]: the event
    [{"type": "trace.client_request_id", "client_request_id": id}]. *)
Definition request_id_frame (client_request_id : string) : string :=
  "data: "
  ++ ("{" ++ dumps_str "type" ++ ": " ++ dumps_str "trace.client_request_id"
      ++ ", " ++ dumps_str "client_request_id" ++ ": "
      ++ dumps_str client_request_id ++ "}")
  ++ FRAME_END.

(** The frame of the [yield] in the loop, for one upstream line. *)
Definition forward (line : string) : string := "data: " ++ line ++ FRAME_END.

(** *** The upstream endpoint and the generator *)

Definition message : Type := string * string.   (* role, content *)

(** The call [client.stream('POST', url, json=payload, headers=headers)]. *)
Record call : Type := {
  url : string;
  authorization : string;
  input : list message;
  stream : bool
}.

(** How the upstream answers a call: it cannot be reached or times out
    before a response, or it responds with a status and a body read line
    by line, which may break off with an error. *)
Inductive upstream : Type :=
| Refuses (e : exn)
| Responds (status_code : nat) (lines : list string) (failure : option exn).

(** What the generator does, in order: a frame yielded downstream, the
    upstream call, a line read from the upstream body. *)
Inductive event : Type :=
| Yield (frame : string)
| Post (c : call)
| Recv (line : string).

Inductive outcome : Type :=
| Returned
| Raised (e : exn).

Record run : Type := { trace : list event; result : outcome }.

Record DatabricksEndpointHandler : Type := { endpoint_name : option string }.

(** [f'{x}'] for a value that may be [None]. *)
Definition fmt (x : option string) : string :=
  match x with Some s => s | None => "None" end.

(** The [url], [headers] and [payload] that [invoke_stream] builds. *)
Definition build_call (self : DatabricksEndpointHandler) (host token : string)
           (messages : list message) : call :=
  {| url := host ++ "/serving-endpoints/" ++ fmt (endpoint_name self)
            ++ "/invocations";
     authorization := "Bearer " ++ token;
     input := messages; stream := true |}.

Definition invoke_stream (env : environ) (self : DatabricksEndpointHandler)
           (messages : list message) (client_request_id : string)
           (request : Request) (server : call -> upstream) : run :=
  match get_credentials env request with
  | inl e => {| trace := []; result := Raised e |}
  | inr (host, token) =>
      let c := build_call self host token messages in
      let first := Yield (request_id_frame client_request_id) in
      match server c with
      | Refuses e => {| trace := [first; Post c]; result := Raised e |}
      | Responds _ lines failure =>
          {| trace := first :: Post c
                      :: flat_map (fun line => [Recv line; Yield (forward line)])
                                  lines;
             result := match failure with
                       | None => Returned
                       | Some e => Raised e
                       end |}
      end
  end.

(** The frames a run sent downstream, and the lines it read upstream. *)
Fixpoint yields (tr : list event) : list string :=
  match tr with
  | [] => []
  | Yield f :: r => f :: yields r
  | _ :: r => yields r
  end.

Fixpoint received (tr : list event) : list string :=
  match tr with
  | [] => []
  | Recv l :: r => l :: received r
  | _ :: r => received r
  end.

(** *** Notions and sample data for the properties *)

(** What the first-frame invariant of the specification asks of a run:
    its downstream output begins with the request-id frame. *)
Definition starts_with_request_id (r : run) (client_request_id : string) : Prop :=
  exists rest, yields (trace r) = request_id_frame client_request_id :: rest.

(** A deployed application ([ENV] unset) and a request that carries no
    forwarded access token. *)
Definition deployed : environ :=
  {| ENV := None; DATABRICKS_HOST := Some "adb-1.azuredatabricks.net";
     DATABRICKS_TOKEN := None |}.

Definition agent01 : DatabricksEndpointHandler :=
  {| endpoint_name := Some "mas-367ff95f-endpoint" |}.

Definition hello : list message := [("user", "Say hello briefly")].

Definition healthy : call -> upstream :=
  fun _ => Responds 200 ["{}"] None.

(** What the terminal error frame of the specification asks of a run:
    some frame sent downstream is of the relay's own making, neither the
    request-id frame nor a forwarded upstream line. *)
Definition error_frame_emitted (r : run) (client_request_id : string) : Prop :=
  exists err,
    In err (yields (trace r))
    /\ err <> request_id_frame client_request_id
    /\ ~ In err (map forward (received (trace r))).

Definition local : environ :=
  {| ENV := Some "development"; DATABRICKS_HOST := Some "https://dbc.example";
     DATABRICKS_TOKEN := Some "dapi0123" |}.

Definition unreachable : call -> upstream := fun _ => Refuses TimeoutException.

End Relay.

(* ===================================================================== *)
(** ** The navigation context: [NavigationContext.tsx] *)
(* ===================================================================== *)

Module Navigation.
Local Open Scope string_scope.

Inductive TabType : Type := home | chat | dashboard | tools | about.

Definition tab_name (tab : TabType) : string :=
  match tab with
  | home => "home"
  | chat => "chat"
  | dashboard => "dashboard"
  | tools => "tools"
  | about => "about"
  end.

Record Chat : Type := {
  id : string;
  title : string;
  lastMessage : string;
  timestamp : N;
  preview : string
}.

(** The state that [NavigationProvider] holds in its [useState] cells,
    and the path of the router. [None] is [undefined]. *)
Record NavState : Type := {
  pathname : string;
  currentChatId : option string;
  chats : list Chat;
  isStreaming : bool;
  isSidebarOpen : bool;
  isSidebarCollapsed : bool;
  selectedAgentId : string;
  isEditMode : bool
}.

(** What a handler does besides setting state. *)
Inductive effect : Type :=
| ToastInfo (message description : string)
| RouterPush (path : string)
| ConsoleLog (message : string).

(** What a handler reads from its surroundings: whether [NODE_ENV] is
    ["production"], and [window.innerWidth]. *)
Record browser : Type := { production : bool; innerWidth : N }.

Definition devLog (b : browser) (message : string) : list effect :=
  if production b then [] else [ConsoleLog message].

Definition setCurrentChatId (v : option string) (st : NavState) : NavState :=
  {| pathname := pathname st; currentChatId := v; chats := chats st;
     isStreaming := isStreaming st; isSidebarOpen := isSidebarOpen st;
     isSidebarCollapsed := isSidebarCollapsed st;
     selectedAgentId := selectedAgentId st; isEditMode := isEditMode st |}.

Definition setIsSidebarOpen (v : bool) (st : NavState) : NavState :=
  {| pathname := pathname st; currentChatId := currentChatId st;
     chats := chats st; isStreaming := isStreaming st; isSidebarOpen := v;
     isSidebarCollapsed := isSidebarCollapsed st;
     selectedAgentId := selectedAgentId st; isEditMode := isEditMode st |}.

Definition setIsStreaming (v : bool) (st : NavState) : NavState :=
  {| pathname := pathname st; currentChatId := currentChatId st;
     chats := chats st; isStreaming := v; isSidebarOpen := isSidebarOpen st;
     isSidebarCollapsed := isSidebarCollapsed st;
     selectedAgentId := selectedAgentId st; isEditMode := isEditMode st |}.

(** [router.push] of the path of a tab. *)
Definition navigateTo (tab : TabType) (st : NavState) : NavState * list effect :=
  let path := "/" ++ tab_name tab in
  ({| pathname := path; currentChatId := currentChatId st; chats := chats st;
      isStreaming := isStreaming st; isSidebarOpen := isSidebarOpen st;
      isSidebarCollapsed := isSidebarCollapsed st;
      selectedAgentId := selectedAgentId st; isEditMode := isEditMode st |},
   [RouterPush path]).

Definition handleNewChat (b : browser) (st : NavState) : NavState * list effect :=
  if isStreaming st then
    (st, [ToastInfo "Please wait for the current response to complete"
                    "You can start a new chat once the response finishes"])
  else
    let st1 := setCurrentChatId None st in
    let (st2, pushed) := navigateTo chat st1 in
    (st2, (pushed ++ devLog b "Starting new chat session")%list).

Definition handleChatSelect (b : browser) (chatId : string) (st : NavState)
  : NavState * list effect :=
  if isStreaming st then
    (st, [ToastInfo "Please wait for the current response to complete"
                    "You can switch chats once the response finishes"])
  else
    let st1 := setCurrentChatId (Some chatId) st in
    let (st2, pushed) := navigateTo chat st1 in
    ((if (innerWidth b <? 1024)%N then setIsSidebarOpen false st2 else st2),
     pushed).

(** *** Notions and sample data for the properties *)

Definition busy : NavState :=
  {| pathname := "/chat"; currentChatId := Some "chat-1";
     chats := [ {| id := "chat-1"; title := "Hello"; lastMessage := "Hi";
                   timestamp := 1730000000; preview := "Hi..." |} ];
     isStreaming := true; isSidebarOpen := true; isSidebarCollapsed := false;
     selectedAgentId := "databricks-agent-01"; isEditMode := false |}.

End Navigation.

(* ===================================================================== *)
(** ** The runtime configuration: [config.ts] *)
(* ===================================================================== *)

Module Config.
Import Js Json.
Local Open Scope string_scope.

Inductive endpoint_type : Type := openai_chat | databricks_agent.

Record endpoint : Type := {
  displayName : string;
  endpointName : string;
  type : endpoint_type
}.

Record AppConfig : Type := {
  endpoints : list endpoint;
  apiBaseUrl : option string
}.

Definition DEFAULT_CONFIG : AppConfig :=
  {| endpoints :=
       [ {| displayName := "Sonnet 4";
            endpointName := "databricks-claude-sonnet-4";
            type := openai_chat |};
         {| displayName := "mas_mehdi_genai_demo";
            endpointName := "mas-367ff95f-endpoint";
            type := databricks_agent |} ];
     apiBaseUrl := Some "http://localhost:8001/api" |}.

(** *** Values at run time

    [AppConfig] is the declared type of the cache and of what
    [loadConfig] returns; at run time the cache holds [null], the object
    [DEFAULT_CONFIG], or whatever [response.json()] resolved to, which
    can be any JSON value. *)

Definition type_name (t : endpoint_type) : string :=
  match t with
  | openai_chat => "openai-chat"
  | databricks_agent => "databricks-agent"
  end.

Definition endpoint_object (e : endpoint) : json :=
  JObject [(lit "displayName", JString (lit (displayName e)));
           (lit "endpointName", JString (lit (endpointName e)));
           (lit "type", JString (lit (type_name (type e))))].

(** An [AppConfig] as a value: an object. *)
Definition object_of (c : AppConfig) : json :=
  JObject ((lit "endpoints", JArray (map endpoint_object (endpoints c)))
           :: match apiBaseUrl c with
              | Some u => [(lit "apiBaseUrl", JString (lit u))]
              | None => []
              end).

(** The number that a sequence of digits writes. *)
Definition digits_value (d : jsstring) : N :=
  fold_left (fun a c => (10 * a + (c - 48))%N) d 0%N.

(** Whether the Number value of a JSON number is zero. The text writes
    [m * 10^k] for an integer [m], its digits before the exponent; the
    Number value is the nearest double, ties to even, which is zero when
    [m * 10^k] is at most [2^-1075], half the least positive double. *)
Definition number_is_zero (lexeme : jsstring) : bool :=
  let (_, r0) := parse_minus lexeme in
  match parse_int r0 with
  | None => false
  | Some (i, r1) =>
      match parse_frac r1 with
      | None => false
      | Some (f, r2) =>
          match parse_exp r2 with
          | None => false
          | Some (e, _) =>
              let fraction := tl f in
              let m := digits_value (i ++ fraction) in
              let (sign, power) := parse_sign (tl e) in
              let x := digits_value power in
              let scale := N.of_nat (List.length fraction) in
              let down :=
                if eqb sign [45%N] then (x + scale)%N else (scale - x)%N in
              (m * 2 ^ 1075 <=? 10 ^ down)%N
          end
      end
  end.

(** [ToBoolean] of ECMAScript, as [if (cachedConfig)] and
    [if (!cachedConfig)] apply it: [null], [false], zero and the empty
    string are falsy, every object and array is truthy. *)
Definition ToBoolean (v : json) : bool :=
  match v with
  | JNull => false
  | JBool b => b
  | JNumber lexeme => negb (number_is_zero lexeme)
  | JString s => truthy s
  | JArray _ | JObject _ => true
  end.

(** *** The module *)

(** What [fetch("/app_config.json")] does when it is called: it throws, or
    it gives a response; [body] is what [response.json()] resolves to,
    any JSON value, and [None] when it rejects. *)
Inductive fetch_result : Type :=
| FetchThrows
| FetchResponse (ok : bool) (body : option json).

(** What [loadConfig] writes to the console. *)
Inductive console_line : Type :=
| Loaded (config : json)
| NoConfigFound
| CouldNotLoad.

(** The module variable [cachedConfig] ([JNull] is [null]), with what the
    code does not hold but acts on: the calls of [loadConfig] that are
    suspended at the [await] of line 52 and at the [await] of line 55
    (they hold nothing by which the module could tell them apart, so
    their numbers are kept), the number of fetches issued, and the
    console. *)
Record module_state : Type := {
  cachedConfig : json;
  awaiting_fetch : nat;
  awaiting_json : nat;
  fetches : nat;
  console : list console_line
}.

Definition init : module_state :=
  {| cachedConfig := JNull; awaiting_fetch := 0; awaiting_json := 0;
     fetches := 0; console := [] |}.

(** No call of [loadConfig] is suspended. *)
Definition idle (st : module_state) : Prop :=
  awaiting_fetch st = 0 /\ awaiting_json st = 0.

Inductive Error : Type := MkError (message : string).

(** [getConfig()]: [inl] is the error thrown. *)
Definition getConfig (st : module_state) : Error + json :=
  if ToBoolean (cachedConfig st) then inr (cachedConfig st)
  else inl (MkError "Config not loaded yet. Call loadConfig() first.").

Definition resetConfig (st : module_state) : module_state :=
  {| cachedConfig := JNull; awaiting_fetch := awaiting_fetch st;
     awaiting_json := awaiting_json st; fetches := fetches st;
     console := console st |}.

(** The end of a call of [loadConfig]: a line on the console, then the
    write to [cachedConfig]. *)
Definition set_cache (config : json) (line : console_line)
           (st : module_state) : module_state :=
  {| cachedConfig := config; awaiting_fetch := awaiting_fetch st;
     awaiting_json := awaiting_json st; fetches := fetches st;
     console := (console st ++ [line])%list |}.

(** What happens to the module, one step at a time: [loadConfig] is
    called; the fetch of a suspended call settles ([None]: it throws,
    [Some ok]: it gives a response); the [response.json()] of a suspended
    call settles ([None]: it rejects); [getConfig] or [resetConfig] is
    called. Between two of these steps no code of the module runs. *)
Inductive event : Type :=
| Calls
| FetchSettles (response : option bool)
| JsonSettles (body : option json)
| GetConfig
| ResetConfig.

(** What a step gives to the importing code: a call of [loadConfig]
    returns (its promise is fulfilled), [getConfig] returns or throws, or
    nothing. *)
Inductive output : Type :=
| Returns (config : json)
| Gets (result : Error + json)
| Silent.

(** One step. [Calls] is lines 46 to 52 of [loadConfig], up to the first
    [await]; [FetchSettles] is lines 52 to 55 and 59 to 71;
    [JsonSettles] is lines 55 to 58 and 64 to 71. A settlement that no
    call waits for does not occur, and changes nothing. *)
Definition step (st : module_state) (e : event) : module_state * output :=
  match e with
  | Calls =>
      if ToBoolean (cachedConfig st) then (st, Returns (cachedConfig st))
      else
        ({| cachedConfig := cachedConfig st;
            awaiting_fetch := S (awaiting_fetch st);
            awaiting_json := awaiting_json st;
            fetches := S (fetches st); console := console st |}, Silent)
  | FetchSettles response =>
      match awaiting_fetch st with
      | O => (st, Silent)
      | S n =>
          let resumed :=
            {| cachedConfig := cachedConfig st; awaiting_fetch := n;
               awaiting_json := awaiting_json st;
               fetches := fetches st; console := console st |} in
          match response with
          | Some true =>
              ({| cachedConfig := cachedConfig st; awaiting_fetch := n;
                  awaiting_json := S (awaiting_json st);
                  fetches := fetches st; console := console st |}, Silent)
          | Some false =>
              (set_cache (object_of DEFAULT_CONFIG) NoConfigFound resumed,
               Returns (object_of DEFAULT_CONFIG))
          | None =>
              (set_cache (object_of DEFAULT_CONFIG) CouldNotLoad resumed,
               Returns (object_of DEFAULT_CONFIG))
          end
      end
  | JsonSettles body =>
      match awaiting_json st with
      | O => (st, Silent)
      | S n =>
          let resumed :=
            {| cachedConfig := cachedConfig st;
               awaiting_fetch := awaiting_fetch st; awaiting_json := n;
               fetches := fetches st; console := console st |} in
          match body with
          | Some config =>
              (set_cache config (Loaded config) resumed, Returns config)
          | None =>
              (set_cache (object_of DEFAULT_CONFIG) CouldNotLoad resumed,
               Returns (object_of DEFAULT_CONFIG))
          end
      end
  | GetConfig => (st, Gets (getConfig st))
  | ResetConfig => (resetConfig st, Silent)
  end.

(** The steps in the order in which they occur. *)
Fixpoint run (events : list event) (st : module_state)
  : module_state * list output :=
  match events with
  | [] => (st, [])
  | e :: r =>
      let (st1, o) := step st e in
      let (st2, os) := run r st1 in
      (st2, o :: os)
  end.

(** [await loadConfig()] when no step of another call comes in between:
    the whole body of the function, with what the network answers to its
    fetch. *)
Definition loadConfig (net : fetch_result) (st : module_state)
  : json * module_state :=
  if ToBoolean (cachedConfig st) then (cachedConfig st, st)
  else
    let fetched :=
      {| cachedConfig := cachedConfig st;
         awaiting_fetch := awaiting_fetch st;
         awaiting_json := awaiting_json st;
         fetches := S (fetches st); console := console st |} in
    match net with
    | FetchResponse true (Some config) =>
        (config, set_cache config (Loaded config) fetched)
    | FetchResponse false _ =>
        (object_of DEFAULT_CONFIG,
         set_cache (object_of DEFAULT_CONFIG) NoConfigFound fetched)
    | FetchResponse true None | FetchThrows =>
        (object_of DEFAULT_CONFIG,
         set_cache (object_of DEFAULT_CONFIG) CouldNotLoad fetched)
    end.

(** The steps of such a call. *)
Definition awaited (net : fetch_result) : list event :=
  Calls ::
  match net with
  | FetchThrows => [FetchSettles None]
  | FetchResponse false _ => [FetchSettles (Some false)]
  | FetchResponse true body => [FetchSettles (Some true); JsonSettles body]
  end.

(** Calls from the importing code that come one after another, each
    [loadConfig] awaited before the next call. *)
Inductive call : Type :=
| CallLoadConfig (net : fetch_result)
| CallGetConfig
| CallResetConfig.

Definition events_of (c : call) : list event :=
  match c with
  | CallLoadConfig net => awaited net
  | CallGetConfig => [GetConfig]
  | CallResetConfig => [ResetConfig]
  end.

Definition schedule (calls : list call) : list event :=
  flat_map events_of calls.

(** *** Notions and sample data for the properties *)

(** What a [loadConfig] that goes to the network resolves with. *)
Definition resolved (net : fetch_result) : json :=
  match net with
  | FetchResponse true (Some config) => config
  | _ => object_of DEFAULT_CONFIG
  end.

(** The values that the steps returned from [loadConfig]. *)
Definition returns (outputs : list output) : list json :=
  flat_map (fun o => match o with Returns c => [c] | _ => [] end) outputs.

(** What the importing code gets from a step once [config] is cached. *)
Definition answer (config : json) (e : event) : output :=
  match e with
  | Calls => Returns config
  | GetConfig => Gets (inr config)
  | _ => Silent
  end.

Definition is_reset (e : event) : bool :=
  match e with ResetConfig => true | _ => false end.

Definition is_call (e : event) : bool :=
  match e with Calls => true | _ => false end.

Definition is_reset_call (c : call) : bool :=
  match c with CallResetConfig => true | _ => false end.

(** A [loadConfig] whose fetch resolves with a falsy body. *)
Definition is_falsy_load (c : call) : bool :=
  match c with
  | CallLoadConfig net => negb (ToBoolean (resolved net))
  | _ => false
  end.

(** The value of the first [loadConfig] among some calls that resolves
    with a truthy value. *)
Fixpoint first_truthy_load (calls : list call) : option json :=
  match calls with
  | [] => None
  | CallLoadConfig net :: r =>
      if ToBoolean (resolved net) then Some (resolved net)
      else first_truthy_load r
  | _ :: r => first_truthy_load r
  end.

(** The memoization as it would hold for every body: whatever a call
    resolved with, the next call returns that value and leaves the module
    as it is. *)
Definition memoized (net : fetch_result) (st : module_state) : Prop :=
  forall net',
    loadConfig net' (snd (loadConfig net st))
    = (fst (loadConfig net st), snd (loadConfig net st)).

Definition served : json :=
  object_of
    {| endpoints := [ {| displayName := "Agent"; endpointName := "agent-01";
                         type := databricks_agent |} ];
       apiBaseUrl := None |}.

End Config.

(* ===================================================================== *)
(** ** The event-folding state machine of the chat view *)
(* ===================================================================== *)

Module Folding.
Local Open Scope string_scope.

(** Modelled from the spec: the record of one tool call (section 3,
    [AccumulatedMessage.toolCalls]); the chat view that declares it,
    [client/components/chat/ChatView.tsx], is not in the tree. [None] is an
    output not yet received. *)
Record ToolCallRecord : Type := {
  callId : string;
  name : string;
  arguments : string;
  output : option string
}.

(** Modelled from the spec: the assistant reply under construction
    (section 3, [AccumulatedMessage]), declared in the missing chat view. *)
Record AccumulatedMessage : Type := {
  textContent : string;
  toolCalls : list ToolCallRecord;
  traceMetadata : option string
}.

(** Modelled from the spec: a parsed frame, by the event types of
    sections 4.3 and 6 that the state machine of the missing chat view
    tells apart; every other type is [Unrecognized]. *)
Inductive StreamFrame : Type :=
| ClientRequestId (client_request_id : string)
| TextDelta (delta : string)
| FunctionCall (call_id name arguments : string)
| FunctionCallOutput (call_id output : string)
| TraceSummary (metadata : string)
| ResponseCompleted
| DoneSentinel
| Unrecognized (eventType : string).

(** Modelled from the spec: the states of section 4.3. *)
Inductive status : Type := Idle | AwaitingId | Streaming | Completed | Aborted.

(** Modelled from the spec: what the read loop of the missing chat view
    hands to the state machine (sections 4.3 and 4.4): the first byte read,
    a frame, the end of the stream, a trigger of the cancellation token, a
    read error. *)
Inductive input : Type :=
| FirstByte
| Frame (f : StreamFrame)
| StreamEnd
| Cancel
| ReadError.

(** Modelled from the spec: one in-flight stream (section 3,
    [PendingRequest]) with the message it builds. *)
Record PendingRequest : Type := {
  state : status;
  requestId : option string;
  message : AccumulatedMessage
}.

Definition empty_message : AccumulatedMessage :=
  {| textContent := ""; toolCalls := []; traceMetadata := None |}.

(** Modelled from the spec: a stream before its first byte (section 4.3,
    Idle), in the missing chat view. *)
Definition start : PendingRequest :=
  {| state := Idle; requestId := None; message := empty_message |}.

(** Modelled from the spec: "Completed / Aborted are terminal" (section
    4.3), in the missing chat view. *)
Definition terminal (s : status) : bool :=
  match s with
  | Completed | Aborted => true
  | _ => false
  end.

Section Merge.

(** The spec says that a later call frame with a known id merges into
    the record, not how the argument fragments combine. *)
Variable merge_arguments : string -> string -> string.

(** Modelled from the spec: "on a function/tool-call frame, upsert the
    matching ToolCallRecord by call id" (section 4.3), in the missing chat
    view: the first record with the id is updated, and a new record is
    appended when there is none. *)
Fixpoint upsert_call (records : list ToolCallRecord)
         (call_id nm args : string) : list ToolCallRecord :=
  match records with
  | [] => [ {| callId := call_id; name := nm; arguments := args;
               output := None |} ]
  | r :: rest =>
      if String.eqb (callId r) call_id then
        {| callId := callId r; name := nm;
           arguments := merge_arguments (arguments r) args;
           output := output r |} :: rest
      else r :: upsert_call rest call_id nm args
  end.

(** Modelled from the spec: "on a function/tool-call-output frame, attach
    the output to the existing record with the same call id (if no
    matching record exists, treat as a new record with empty arguments)"
    (section 4.3), in the missing chat view. *)
Fixpoint attach_output (records : list ToolCallRecord)
         (call_id out : string) : list ToolCallRecord :=
  match records with
  | [] => [ {| callId := call_id; name := ""; arguments := "";
               output := Some out |} ]
  | r :: rest =>
      if String.eqb (callId r) call_id then
        {| callId := callId r; name := name r; arguments := arguments r;
           output := Some out |} :: rest
      else r :: attach_output rest call_id out
  end.

(** Modelled from the spec: the effect of one frame on the message in the
    Streaming state (section 4.3, with [traceMetadata] "set at most once"
    of section 3), in the missing chat view. Frames that are not named
    there leave the message as it is. *)
Definition fold_frame (m : AccumulatedMessage) (f : StreamFrame)
  : AccumulatedMessage :=
  match f with
  | TextDelta delta =>
      {| textContent := textContent m ++ delta; toolCalls := toolCalls m;
         traceMetadata := traceMetadata m |}
  | FunctionCall call_id nm args =>
      {| textContent := textContent m;
         toolCalls := upsert_call (toolCalls m) call_id nm args;
         traceMetadata := traceMetadata m |}
  | FunctionCallOutput call_id out =>
      {| textContent := textContent m;
         toolCalls := attach_output (toolCalls m) call_id out;
         traceMetadata := traceMetadata m |}
  | TraceSummary metadata =>
      {| textContent := textContent m; toolCalls := toolCalls m;
         traceMetadata := match traceMetadata m with
                          | Some old => Some old
                          | None => Some metadata
                          end |}
  | _ => m
  end.

Definition set_state (s : status) (p : PendingRequest) : PendingRequest :=
  {| state := s; requestId := requestId p; message := message p |}.

(** Modelled from the spec: the transitions of section 4.3, with the
    cancellation of section 4.4, in the missing chat view. A pair of state
    and input that the spec does not name leaves the request as it is. *)
Definition step (p : PendingRequest) (i : input) : PendingRequest :=
  match state p with
  | Completed | Aborted => p
  | Idle =>
      match i with
      | FirstByte => set_state AwaitingId p
      | Cancel | ReadError => set_state Aborted p
      | _ => p
      end
  | AwaitingId =>
      match i with
      | Frame (ClientRequestId rid) =>
          {| state := Streaming; requestId := Some rid; message := message p |}
      | Cancel | ReadError => set_state Aborted p
      | _ => p
      end
  | Streaming =>
      match i with
      | Frame ResponseCompleted | Frame DoneSentinel | StreamEnd =>
          set_state Completed p
      | Cancel | ReadError => set_state Aborted p
      | Frame f =>
          {| state := Streaming; requestId := requestId p;
             message := fold_frame (message p) f |}
      | FirstByte => p
      end
  end.

Definition run (inputs : list input) (p : PendingRequest) : PendingRequest :=
  fold_left step inputs p.

Definition fold_frames (frames : list StreamFrame) (m : AccumulatedMessage)
  : AccumulatedMessage :=
  fold_left fold_frame frames m.

End Merge.

(** *** Notions and sample data for the properties *)

(** The fragments of a list of deltas, one after another. *)
Definition join (fragments : list string) : string :=
  fold_right append "" fragments.

(** The records of a list that bear a given call id. *)
Definition records_for (call_id : string) (records : list ToolCallRecord)
  : list ToolCallRecord :=
  filter (fun r => String.eqb (callId r) call_id) records.

(** A frame that is neither a call nor an output with a given id. *)
Definition not_about (call_id : string) (f : StreamFrame) : bool :=
  match f with
  | FunctionCall c _ _ | FunctionCallOutput c _ => negb (String.eqb c call_id)
  | _ => true
  end.

(** An input that ends a stream in the Streaming state. *)
Definition ends_stream (i : input) : option status :=
  match i with
  | Frame ResponseCompleted | Frame DoneSentinel | StreamEnd => Some Completed
  | Cancel | ReadError => Some Aborted
  | _ => None
  end.

(** The call frame ["c1"], two frames about other things, and the output
    frame ["c1"], on a message that already holds another call. *)
Definition with_other_call : AccumulatedMessage :=
  {| textContent := "Let me check. ";
     toolCalls := [ {| callId := "c0"; name := "search";
                       arguments := "{}"; output := Some "[]" |} ];
     traceMetadata := None |}.

(** A stream of five deltas, cancelled after the second. *)
Definition streaming : PendingRequest :=
  {| state := Streaming; requestId := Some "req-abc123def456";
     message := empty_message |}.

End Folding.

(* ===================================================================== *)
(** ** From the consumer's frames to the state machine *)
(* ===================================================================== *)

Module Wire.
Import Js Json.
Local Open Scope string_scope.

(** A JavaScript string of code units below 256 as a text. *)
Definition text_of (s : jsstring) : string :=
  string_of_list_ascii (map ascii_of_N s).

(** Modelled from the spec: how the missing chat view classifies the
    events that the consumer's loop tells apart (section 6): an event of
    type [response.output_text.delta] carries its text in [delta]; the
    field names of the other events are not given, and they stay
    unrecognized here. *)
Definition frame_of (e : Consumer.log_entry) : Folding.StreamFrame :=
  match e with
  | Consumer.LogDelta _ (Some (JString s)) => Folding.TextDelta (text_of s)
  | Consumer.LogEvent _ (Some (JString t)) => Folding.Unrecognized (text_of t)
  | _ => Folding.Unrecognized ""
  end.

(** The three deltas of the accumulation example, one chunk each. *)
Definition hello_world_chunks : list (list byte) :=
  [ bytes (q "data: {'type':'response.output_text.delta','delta':'Hello'}")
      ++ [x0a; x0a];
    bytes (q "data: {'type':'response.output_text.delta','delta':', '}")
      ++ [x0a; x0a];
    bytes (q "data: {'type':'response.output_text.delta','delta':'world'}")
      ++ [x0a; x0a] ]%list.

End Wire.

(* ===================================================================== *)
(** ** Further notions for the stream consumer *)
(* ===================================================================== *)

Module ConsumerMore.
Import Js Json Consumer.

(** The event numbers that the console shows, in the order written. *)
Definition numbers (out : list log_entry) : list nat :=
  flat_map (fun e => match e with
                     | LogDelta n _ | LogEvent n _ => [n]
                     | LogError _ => []
                     end) out.

(** A list of numbers that grows strictly, starting above [lo]. *)
Fixpoint ascending (lo : nat) (l : list nat) : bool :=
  match l with
  | [] => true
  | k :: r => (lo <? k) && ascending k r
  end.

Definition CR : char16 := 13%N.

End ConsumerMore.

(* ===================================================================== *)
(** ** More of the relay: the other strategy, the first event *)
(* ===================================================================== *)

Module RelayMore.
Import Relay.
Local Open Scope string_scope.

(** [WorkspaceClient(host=host, token=token, auth_type='pat')]. *)
Record WorkspaceClient : Type := {
  client_host : string;
  client_token : string;
  auth_type : string
}.

(** [WorkspaceClientAuth.get_credentials]: the same host and token as
    [HttpTokenAuth], wrapped in a client. *)
Definition get_workspace_client (env : environ) (request : Request)
  : exn + WorkspaceClient :=
  match get_databricks_host env with
  | inl e => inl e
  | inr host =>
      if is_local_development env then
        match get_dev_token env with
        | inl e => inl e
        | inr token =>
            inr {| client_host := host; client_token := token;
                   auth_type := "pat" |}
        end
      else
        match get_user_token_from_request request with
        | inl e => inl e
        | inr token =>
            inr {| client_host := host; client_token := token;
                   auth_type := "pat" |}
        end
  end.

(** The text that [json.dumps] gives for the first event, between
    [data: ] and the end of the frame. *)
Definition request_id_event (client_request_id : string) : string :=
  "{" ++ dumps_str "type" ++ ": " ++ dumps_str "trace.client_request_id"
  ++ ", " ++ dumps_str "client_request_id" ++ ": "
  ++ dumps_str client_request_id ++ "}".

(** A character between the space and the tilde. *)
Definition printable (c : ascii) : bool :=
  ((32 <=? nat_of_ascii c) && (nat_of_ascii c <=? 126))%nat.

Definition is_post (e : event) : bool :=
  match e with Post _ => true | _ => false end.

End RelayMore.

(* ===================================================================== *)
(** ** One character of a JSON string *)
(* ===================================================================== *)

Module JsonMore.
Import Js Json.

(** What [parse_chars] finds at the head of a text: the closing quote,
    one character (plain or escaped), or an error. *)
Inductive char_result : Type :=
| EndOfString (rest : list N)
| Char (c : N) (rest : list N)
| BadChar.

(** One step of [parse_chars], without its recursion. *)
Definition next_char (s : list N) : char_result :=
  match s with
  | [] => BadChar
  | c :: r =>
      if (c =? 34)%N then EndOfString r
      else if (c =? 92)%N then
        match r with
        | [] => BadChar
        | e :: r1 =>
            if (e =? 117)%N then
              match r1 with
              | h1 :: h2 :: h3 :: h4 :: r2 =>
                  match hex4 h1 h2 h3 h4 with
                  | Some u => Char u r2
                  | None => BadChar
                  end
              | _ => BadChar
              end
            else
              match unescape e with
              | Some x => Char x r1
              | None => BadChar
              end
        end
      else if (c <? 32)%N then BadChar
      else Char c r
  end.

End JsonMore.

(* ===================================================================== *)
(** ** More of the navigation context *)
(* ===================================================================== *)

Module NavigationMore.
Import Navigation.
Local Open Scope string_scope.

(** [pathname.replace(/^\//, "")]: the path without one leading slash. *)
Definition strip_leading_slash (pathname : string) : string :=
  match pathname with
  | String c r => if Ascii.eqb c "/" then r else pathname
  | EmptyString => pathname
  end.

(** [pathnameToTab]: the tab that a path shows. *)
Definition pathnameToTab (pathname : string) : TabType :=
  let path := strip_leading_slash pathname in
  if String.eqb path "" || String.eqb path "home" then home
  else if String.eqb path "chat" then chat
  else if String.eqb path "dashboard" then dashboard
  else if String.eqb path "tools" then tools
  else if String.eqb path "about" then about
  else home.

(** [activeTab], derived from the path at every render. *)
Definition activeTab (st : NavState) : TabType := pathnameToTab (pathname st).

(** What a handler starts without waiting for it. *)
Inductive background : Type := FetchChats.

(** [handleChatIdChange], as the render that saw the state [rendered]
    made it: the callback reads the [currentChatId] of that render
    (the variable is in its dependency list, so a render with another id
    makes a new callback), while [setCurrentChatId] writes the state [st]
    that the next render will see. [chatId] is a string, so
    [chatId !== undefined] holds, and a chat is new when no chat was
    current at that render. The callback of the render that sees [st]
    is [handleChatIdChange st]. *)
Definition handleChatIdChange (rendered : NavState) (chatId : string)
           (st : NavState) : NavState * list background :=
  let isNewChat :=
    match currentChatId rendered with None => true | Some _ => false end in
  (setCurrentChatId (Some chatId) st,
   if isNewChat then [FetchChats] else []).

(** *** [fetchChats] *)

(** A chat as [/api/chats] lists it. *)
Record ApiMessage : Type := { content : string }.

Record ApiChat : Type := {
  chat_id : string;
  chat_title : string;
  messages : list ApiMessage;
  updated_at : string
}.

(** What [fetch("/api/chats", { signal })] and [response.json()] come to:
    the request is aborted, something else is thrown (by the fetch, by
    the decoding, or by the mapping of a body that is no list of chats),
    or the list of chats arrives. *)
Inductive chats_response : Type :=
| ChatsAborted
| ChatsFailed
| ChatsData (data : list ApiChat).

Inductive fetch_log : Type := FailedToFetchChatHistory.

Definition setChats (v : list Chat) (st : NavState) : NavState :=
  {| pathname := pathname st; currentChatId := currentChatId st; chats := v;
     isStreaming := isStreaming st; isSidebarOpen := isSidebarOpen st;
     isSidebarCollapsed := isSidebarCollapsed st;
     selectedAgentId := selectedAgentId st; isEditMode := isEditMode st |}.

(** [chat.messages[chat.messages.length - 1].content], asked for only
    when there is a message. *)
Definition last_content (c : ApiChat) : string :=
  match nth_error (messages c) (List.length (messages c) - 1) with
  | Some m => content m
  | None => ""
  end.

Section FetchChats.

(** [new Date(chat.updated_at)], as a time stamp. *)
Variable parse_date : string -> N.

(** The function given to [data.map]. *)
Definition toChat (c : ApiChat) : Chat :=
  {| id := chat_id c;
     title := chat_title c;
     lastMessage :=
       if (0 <? List.length (messages c))%nat then last_content c else "";
     timestamp := parse_date (updated_at c);
     preview :=
       if (0 <? List.length (messages c))%nat
       then String.substring 0 50 (last_content c) ++ "..."
       else "" |}.

Definition fetchChats (response : chats_response) (st : NavState)
  : NavState * list fetch_log :=
  match response with
  | ChatsData data => (setChats (map toChat data) st, [])
  | ChatsAborted => (st, [])
  | ChatsFailed => (st, [FailedToFetchChatHistory])
  end.

End FetchChats.

(** *** The collapsed side bar and [localStorage] *)

(** [localStorage]: the items stored, the newest first. *)
Definition Storage : Type := list (string * string).

Fixpoint getItem (storage : Storage) (key : string) : option string :=
  match storage with
  | [] => None
  | (k, v) :: r => if String.eqb k key then Some v else getItem r key
  end.

Definition setItem (storage : Storage) (key value : string) : Storage :=
  (key, value) :: filter (fun kv => negb (String.eqb (fst kv) key)) storage.

Definition setIsSidebarCollapsed (v : bool) (st : NavState) : NavState :=
  {| pathname := pathname st; currentChatId := currentChatId st;
     chats := chats st; isStreaming := isStreaming st;
     isSidebarOpen := isSidebarOpen st; isSidebarCollapsed := v;
     selectedAgentId := selectedAgentId st; isEditMode := isEditMode st |}.

(** [collapsed.toString()]. *)
Definition bool_toString (b : bool) : string :=
  if b then "true" else "false".

(** [handleSetSidebarCollapsed]. *)
Definition handleSetSidebarCollapsed (collapsed : bool)
           (st : NavState) (storage : Storage) : NavState * Storage :=
  (setIsSidebarCollapsed collapsed st,
   setItem storage "sidebarCollapsed" (bool_toString collapsed)).

(** The effect that runs when the provider mounts. *)
Definition loadSidebarCollapsed (storage : Storage) (st : NavState) : NavState :=
  match getItem storage "sidebarCollapsed" with
  | None => st
  | Some savedCollapsed =>
      setIsSidebarCollapsed (String.eqb savedCollapsed "true") st
  end.

(** The state that [NavigationProvider] starts from. *)
Definition initial (path : string) : NavState :=
  {| pathname := path; currentChatId := None; chats := [];
     isStreaming := false; isSidebarOpen := false;
     isSidebarCollapsed := false; selectedAgentId := "";
     isEditMode := false |}.

End NavigationMore.

(* ===================================================================== *)
(** ** The chat routes of the Next.js server and the top bar *)
(* ===================================================================== *)

Module Routes.
Import Js Json.
Local Open Scope string_scope.

(** [process.env.BACKEND_URL || "http://localhost:8000"]. *)
Definition BACKEND_URL (env : option string) : string :=
  match env with
  | Some u => if String.eqb u "" then "http://localhost:8000" else u
  | None => "http://localhost:8000"
  end.

(** A [fetch] to the backend. *)
Record backend_call : Type := { call_url : string; call_method : string }.

(** What the [fetch] and the [response.json()] after it come to: the
    fetch throws, or there is a response with a status, whose body
    decodes ([Some]) or does not ([None]). *)
Inductive backend : Type :=
| BackendThrows
| BackendResponse (status : nat) (body : option json).

(** [response.ok]. *)
Definition response_ok (status : nat) : bool :=
  ((200 <=? status) && (status <=? 299))%nat.

(** A response made by [NextResponse.json(data, { status })]: its status
    and the value [data] that was given, which is serialised anew into
    the body (the text sent is that of [JSON.stringify(data)], not the
    text received from the backend). *)
Record NextResponse : Type := { status : nat; data : json }.

(** The statuses of a response that cannot have a body. *)
Definition null_body_status (status : nat) : bool :=
  ((status =? 101) || (status =? 103) || (status =? 204) || (status =? 205)
   || (status =? 304))%nat.

(** [NextResponse.json(data, { status })], which builds a [Response] with
    a body: a status outside 200..599 is a [RangeError], and a status that
    allows no body is a [TypeError] ([None] for both). *)
Definition NextResponse_json (data : json) (status : nat) : option NextResponse :=
  if ((200 <=? status) && (status <=? 599))%nat
  then if null_body_status status then None
       else Some {| status := status; data := data |}
  else None.

(** What a route handler comes to: its response, and whether it wrote
    to [console.error]. *)
Record handled : Type := { response : NextResponse; logged : bool }.

(** [{ error: message }]. *)
Definition error_body (message : string) : json :=
  JObject [(lit "error", JString (lit message))].

(** [{ success: false, error: message }]. *)
Definition failure_body (message : string) : json :=
  JObject [(lit "success", JBool false); (lit "error", JString (lit message))].

Definition chat_url (backend_url id : string) : string :=
  backend_url ++ "/api/chats/" ++ id.

(** [GET] of [app/api/chats/[id]/route.ts]. *)
Definition GET (backend_url id : string) (server : backend_call -> backend)
  : handled :=
  let caught :=
    {| response := {| status := 500; data := error_body "Failed to fetch chat" |};
       logged := true |} in
  match server {| call_url := chat_url backend_url id; call_method := "GET" |} with
  | BackendThrows => caught
  | BackendResponse st chat =>
      if negb (response_ok st) then
        match NextResponse_json (error_body "Chat not found") st with
        | Some r => {| response := r; logged := false |}
        | None => caught
        end
      else
        match chat with
        | None => caught
        | Some j =>
            match NextResponse_json j 200 with
            | Some r => {| response := r; logged := false |}
            | None => caught
            end
        end
  end.

(** [DELETE] of the same file. *)
Definition DELETE (backend_url id : string) (server : backend_call -> backend)
  : handled :=
  let caught :=
    {| response := {| status := 500;
                      data := error_body "Failed to delete chat" |};
       logged := true |} in
  match server {| call_url := chat_url backend_url id;
                  call_method := "DELETE" |} with
  | BackendThrows => caught
  | BackendResponse st result =>
      if negb (response_ok st) then
        match NextResponse_json (error_body "Failed to delete chat") st with
        | Some r => {| response := r; logged := false |}
        | None => caught
        end
      else
        match result with
        | None => caught
        | Some j =>
            match NextResponse_json j 200 with
            | Some r => {| response := r; logged := false |}
            | None => caught
            end
        end
  end.

(** [POST] of the route that clears the chat history. *)
Definition POST_clear (backend_url : string) (server : backend_call -> backend)
  : handled :=
  let caught :=
    {| response := {| status := 500;
                      data := failure_body "Failed to clear chat history" |};
       logged := true |} in
  match server {| call_url := backend_url ++ "/api/chats";
                  call_method := "DELETE" |} with
  | BackendThrows => caught
  | BackendResponse st result =>
      if negb (response_ok st) then
        match NextResponse_json (failure_body "Failed to clear chat history") st with
        | Some r => {| response := r; logged := false |}
        | None => caught
        end
      else
        match result with
        | None => caught
        | Some j =>
            match NextResponse_json j 200 with
            | Some r => {| response := r; logged := false |}
            | None => caught
            end
        end
  end.

(** *** Notions for the properties *)

(** The shape that the three handlers share: the answer of the backend,
    the value given for a refusal, the value given after a throw. *)
Definition relay_answer (answer : backend) (refusal caught : json) : handled :=
  let failed :=
    {| response := {| status := 500; data := caught |}; logged := true |} in
  match answer with
  | BackendThrows => failed
  | BackendResponse st result =>
      if negb (response_ok st) then
        match NextResponse_json refusal st with
        | Some r => {| response := r; logged := false |}
        | None => failed
        end
      else
        match result with
        | None => failed
        | Some j =>
            match NextResponse_json j 200 with
            | Some r => {| response := r; logged := false |}
            | None => failed
            end
        end
  end.

(** What a handler owes to the answer of the backend; [caught] is the
    value it gives after a throw. *)
Definition passes_through (h : handled) (answer : backend)
           (refusal caught : json) : Prop :=
  let failed :=
    {| response := {| status := 500; data := caught |}; logged := true |} in
  ((200 <=? status (response h)) && (status (response h) <=? 599))%nat = true
  /\ null_body_status (status (response h)) = false
  /\ (response_ok (status (response h)) = true <->
      exists st j, answer = BackendResponse st (Some j) /\ response_ok st = true)
  /\ (forall st j, answer = BackendResponse st (Some j) ->
                   response_ok st = true ->
                   h = {| response := {| status := 200; data := j |};
                          logged := false |})
  /\ (forall st b, answer = BackendResponse st b ->
                   response_ok st = false -> (200 <= st <= 599)%nat ->
                   st <> 304 ->
                   h = {| response := {| status := st; data := refusal |};
                          logged := false |})
  /\ (forall b, answer = BackendResponse 304 b -> h = failed)
  /\ (forall st, answer = BackendResponse st None -> response_ok st = true ->
                 h = failed)
  /\ (answer = BackendThrows -> h = failed)
  /\ (logged h = true <-> h = failed).

(** *** The name shown in the top bar *)

Definition AT : char16 := 64%N.

(** [userInfo?.user?.split("@")[0] || ""]; [None] is a user that is not
    known yet. *)
Definition displayName (user : option jsstring) : jsstring :=
  match user with
  | None => []
  | Some u => or_empty (hd_error (split u AT))
  end.

End Routes.

(* ===================================================================== *)
(** ** Properties of the JSON parser *)
(* ===================================================================== *)

Module JsonFacts.
Import List Js Json.

(** *** What a parser leaves is shorter than what it was given *)

Lemma skip_ws_le (s : jsstring) : length (skip_ws s) <= length s.
Proof.
  induction s as [|c s IH]; simpl; [lia|].
  destruct (isJsonSpace c); simpl; lia.
Qed.

Lemma next_is_lt (s : jsstring) (c : char16) (r : jsstring) :
  next_is s c = Some r -> length r < length s.
Proof.
  unfold next_is. pose proof (skip_ws_le s) as H.
  destruct (skip_ws s) as [|x t]; [discriminate|].
  destruct (N.eqb x c); [|discriminate].
  intros E. injection E as <-. simpl in H. lia.
Qed.

Lemma span_digits_le (s : jsstring) : length (snd (span_digits s)) <= length s.
Proof.
  induction s as [|c s IH]; simpl; [lia|].
  destruct (isDigit c); [|simpl; lia].
  destruct (span_digits s) as [d r]. simpl in *. lia.
Qed.

Lemma parse_chars_lt (n : nat) :
  forall s acc str r,
    length s <= n -> parse_chars s acc = Some (str, r) -> length r < length s.
Proof.
  induction n as [|n IH]; intros s acc str r Hn H.
  - destruct s; [discriminate|simpl in Hn; lia].
  - destruct s as [|c s]; [discriminate|]. cbn [parse_chars] in H.
    simpl in Hn. cbn [length].
    destruct (c =? 34)%N.
    { injection H as _ <-. lia. }
    destruct (c =? 92)%N.
    { destruct s as [|e s1]; [discriminate|]. simpl in Hn. cbn [length].
      destruct (e =? 117)%N.
      - destruct s1 as [|h1 [|h2 [|h3 [|h4 s2]]]]; try discriminate.
        destruct (hex4 h1 h2 h3 h4); [|discriminate].
        apply IH in H; simpl in *; lia.
      - destruct (unescape e); [|discriminate].
        apply IH in H; simpl in *; lia. }
    destruct (c <? 32)%N; [discriminate|].
    apply IH in H; lia.
Qed.

Lemma parse_number_lt (s n r : jsstring) :
  parse_number s = Some (n, r) -> length r < length s.
Proof.
  unfold parse_number.
  assert (Hm : length (snd (parse_minus s)) <= length s).
  { destruct s as [|c s]; simpl; [lia|]. destruct (c =? 45)%N; simpl; lia. }
  destruct (parse_minus s) as [m r0]. cbn [snd] in Hm.
  assert (Hi : forall i r1, parse_int r0 = Some (i, r1) -> length r1 < length r0).
  { intros i r1. destruct r0 as [|c t]; simpl; [discriminate|].
    destruct (c =? 48)%N.
    - intros E. injection E as _ <-. lia.
    - destruct (isDigit c); [|discriminate].
      pose proof (span_digits_le t) as Hs.
      destruct (span_digits t) as [d r']. intros E. injection E as _ <-.
      simpl in Hs. lia. }
  destruct (parse_int r0) as [[i r1]|]; [|discriminate].
  specialize (Hi i r1 eq_refl).
  assert (Hf : forall f r2, parse_frac r1 = Some (f, r2) -> length r2 <= length r1).
  { intros f r2. destruct r1 as [|c t]; simpl.
    - intros E. injection E as _ <-. simpl. lia.
    - destruct (c =? 46)%N.
      + pose proof (span_digits_le t) as Hs.
        destruct (span_digits t) as [[|x d] r']; [discriminate|].
        intros E. injection E as _ <-. simpl in Hs. lia.
      + intros E. injection E as _ <-. simpl. lia. }
  destruct (parse_frac r1) as [[f r2]|]; [|discriminate].
  specialize (Hf f r2 eq_refl).
  assert (He : forall e r3, parse_exp r2 = Some (e, r3) -> length r3 <= length r2).
  { intros e r3. destruct r2 as [|c t]; simpl.
    - intros E. injection E as _ <-. simpl. lia.
    - destruct ((c =? 101) || (c =? 69))%N.
      + assert (Hg : length (snd (parse_sign t)) <= length t).
        { destruct t as [|x t']; simpl; [lia|].
          destruct ((x =? 43) || (x =? 45))%N; simpl; lia. }
        destruct (parse_sign t) as [sg t1]. cbn [snd] in Hg.
        pose proof (span_digits_le t1) as Hs.
        destruct (span_digits t1) as [[|x d] r']; [discriminate|].
        intros E. injection E as _ <-. simpl in Hs. lia.
      + intros E. injection E as _ <-. simpl. lia. }
  destruct (parse_exp r2) as [[e r3]|]; [|discriminate].
  specialize (He e r3 eq_refl).
  intros E. injection E as _ <-. lia.
Qed.

Lemma keyword_lt (c : char16) (s : jsstring) (w : string) (v v' : json)
      (r : jsstring) :
  w <> EmptyString ->
  keyword (c :: s) w v = Some (v', r) -> length r < length (c :: s).
Proof.
  intros Hw. unfold keyword.
  destruct (startsWith (c :: s) (lit w)); [|discriminate].
  intros E. injection E as _ <-.
  destruct w as [|a w]; [contradiction|].
  cbn [String.length skipn length]. rewrite length_skipn. lia.
Qed.

Section Loops.
Variable value : jsstring -> option (json * jsstring).
Hypothesis value_lt :
  forall t v r, value t = Some (v, r) -> length r < length t.

Lemma parse_elements_lt (g : nat) :
  forall t acc v r,
    parse_elements value g t acc = Some (v, r) -> length r < length t.
Proof.
  induction g as [|g IH]; intros t acc v r H; [discriminate|].
  cbn [parse_elements] in H.
  destruct (value t) as [[v1 t1]|] eqn:Ev; [|discriminate].
  apply value_lt in Ev.
  destruct (next_is t1 44) as [t2|] eqn:E1.
  - apply next_is_lt in E1. apply IH in H. lia.
  - destruct (next_is t1 93) as [t2|] eqn:E2; [|discriminate].
    apply next_is_lt in E2. injection H as _ <-. lia.
Qed.

Lemma parse_members_lt (g : nat) :
  forall t acc v r,
    parse_members value g t acc = Some (v, r) -> length r < length t.
Proof.
  induction g as [|g IH]; intros t acc v r H; [discriminate|].
  cbn [parse_members] in H.
  destruct (next_is t 34) as [t0|] eqn:E0; [|discriminate].
  apply next_is_lt in E0.
  destruct (parse_chars t0 []) as [[k t1]|] eqn:Ek; [|discriminate].
  apply (parse_chars_lt (length t0)) in Ek; [|lia].
  destruct (next_is t1 58) as [t2|] eqn:E2; [|discriminate].
  apply next_is_lt in E2.
  destruct (value t2) as [[v3 t3]|] eqn:Ev; [|discriminate].
  apply value_lt in Ev.
  destruct (next_is t3 44) as [t4|] eqn:E4.
  - apply next_is_lt in E4. apply IH in H. lia.
  - destruct (next_is t3 125) as [t4|] eqn:E5; [|discriminate].
    apply next_is_lt in E5. injection H as _ <-. lia.
Qed.

(** *** Enough fuel is enough *)

Variable value' : jsstring -> option (json * jsstring).

Lemma parse_elements_fuel (g : nat) :
  forall g' t acc,
    (forall t', length t' <= length t -> value t' = value' t') ->
    length t < g -> length t < g' ->
    parse_elements value g t acc = parse_elements value' g' t acc.
Proof.
  induction g as [|g IH]; intros g' t acc Hv Hg Hg'; [lia|].
  destruct g' as [|g']; [lia|]. cbn [parse_elements].
  rewrite <- (Hv t (le_n _)).
  destruct (value t) as [[v1 t1]|] eqn:Ev; [|reflexivity].
  apply value_lt in Ev.
  destruct (next_is t1 44) as [t2|] eqn:E1; [|reflexivity].
  apply next_is_lt in E1. apply IH; try lia.
  intros t' Ht'. apply Hv. lia.
Qed.

Lemma parse_members_fuel (g : nat) :
  forall g' t acc,
    (forall t', length t' <= length t -> value t' = value' t') ->
    length t < g -> length t < g' ->
    parse_members value g t acc = parse_members value' g' t acc.
Proof.
  induction g as [|g IH]; intros g' t acc Hv Hg Hg'; [lia|].
  destruct g' as [|g']; [lia|]. cbn [parse_members].
  destruct (next_is t 34) as [t0|] eqn:E0; [|reflexivity].
  apply next_is_lt in E0.
  destruct (parse_chars t0 []) as [[k t1]|] eqn:Ek; [|reflexivity].
  apply (parse_chars_lt (length t0)) in Ek; [|lia].
  destruct (next_is t1 58) as [t2|] eqn:E2; [|reflexivity].
  apply next_is_lt in E2.
  rewrite <- (Hv t2) by lia.
  destruct (value t2) as [[v3 t3]|] eqn:Ev; [|reflexivity].
  apply value_lt in Ev.
  destruct (next_is t3 44) as [t4|] eqn:E4; [|reflexivity].
  apply next_is_lt in E4. apply IH; try lia.
  intros t' Ht'. apply Hv. lia.
Qed.

End Loops.

Lemma parse_value_lt (fuel : nat) :
  forall s v r, parse_value fuel s = Some (v, r) -> length r < length s.
Proof.
  induction fuel as [|f IH]; intros s v r H; [discriminate|].
  cbn [parse_value] in H. pose proof (skip_ws_le s) as Hs.
  destruct (skip_ws s) as [|c t]; [discriminate|]. cbn [length] in Hs.
  destruct (c =? 34)%N.
  { destruct (parse_chars t []) as [[str r']|] eqn:E; [|discriminate].
    apply (parse_chars_lt (length t)) in E; [|lia].
    injection H as _ <-. lia. }
  destruct (c =? 91)%N.
  { destruct (next_is t 93) as [r'|] eqn:E.
    - apply next_is_lt in E. injection H as _ <-. lia.
    - apply (parse_elements_lt _ IH) in H. lia. }
  destruct (c =? 123)%N.
  { destruct (next_is t 125) as [r'|] eqn:E.
    - apply next_is_lt in E. injection H as _ <-. lia.
    - apply (parse_members_lt _ IH) in H. lia. }
  destruct ((c =? 45)%N || isDigit c).
  { destruct (parse_number (c :: t)) as [[n r']|] eqn:E; [|discriminate].
    apply parse_number_lt in E. injection H as _ <-. simpl in E. lia. }
  destruct (c =? 116)%N.
  { apply keyword_lt in H; [simpl in H; lia|discriminate]. }
  destruct (c =? 102)%N.
  { apply keyword_lt in H; [simpl in H; lia|discriminate]. }
  destruct (c =? 110)%N; [|discriminate].
  apply keyword_lt in H; [simpl in H; lia|discriminate].
Qed.

(** With more fuel than the text has characters, the fuel does not
    matter. *)
Lemma parse_value_fuel (f : nat) :
  forall f' s, length s < f -> length s < f' ->
               parse_value f s = parse_value f' s.
Proof.
  induction f as [|f IH]; intros f' s Hf Hf'; [lia|].
  destruct f' as [|f']; [lia|]. cbn [parse_value].
  pose proof (skip_ws_le s) as Hs.
  destruct (skip_ws s) as [|c t]; [reflexivity|]. cbn [length] in Hs.
  destruct (c =? 34)%N; [reflexivity|].
  destruct (c =? 91)%N.
  { destruct (next_is t 93); [reflexivity|].
    apply parse_elements_fuel; try lia.
    - apply parse_value_lt.
    - intros t' Ht'. apply IH; lia. }
  destruct (c =? 123)%N; [|reflexivity].
  destruct (next_is t 125); [reflexivity|].
  apply parse_members_fuel; try lia.
  - apply parse_value_lt.
  - intros t' Ht'. apply IH; lia.
Qed.

(** [JSON_parse] is what any larger bound on nesting gives. *)
Lemma JSON_parse_fuel (text : jsstring) (more : nat) :
  JSON_parse text
  = match parse_value (S (length text) + more) text with
    | Some (v, r) => match skip_ws r with [] => Some v | _ :: _ => None end
    | None => None
    end.
Proof.
  unfold JSON_parse.
  now rewrite (parse_value_fuel (S (length text)) (S (length text) + more))
    by lia.
Qed.

(** *** What [JSON.parse] accepts *)

Example parse_delta :
  JSON_parse
    (lit (q " {'type': 'response.output_text.delta', 'delta': 'Hi!\n'} "))
  = Some (JObject [(lit "type", JString (lit "response.output_text.delta"));
                   (lit "delta", JString (lit "Hi!" ++ [10%N]))]).
Proof. vm_compute. reflexivity. Qed.

Example parse_nested :
  JSON_parse (lit (q "[1, -2.5e+3, true, false, null, {'a': []}, {}]"))
  = Some (JArray [JNumber (lit "1"); JNumber (lit "-2.5e+3"); JBool true;
                  JBool false; JNull; JObject [(lit "a", JArray [])];
                  JObject []]).
Proof. vm_compute. reflexivity. Qed.

Example parse_rejects :
  map (fun t : string => JSON_parse (lit (q t)))
      ["[DONE]"%string; "[1,]"%string; "{'a':1,}"%string; "01"%string;
       "1."%string; "+1"%string; "tru"%string; "{a:1}"%string;
       "{'a':1} x"%string; "'open"%string; "'\x'"%string; ""%string]
  = [None; None; None; None; None; None; None; None; None; None; None; None].
Proof. vm_compute. reflexivity. Qed.

Example duplicate_key_last_wins :
  option_map (fun e => get_prop e (lit "type"))
             (JSON_parse (lit (q "{'type':'a','type':'b'}")))
  = Some (inr (Some (JString (lit "b")))).
Proof. vm_compute. reflexivity. Qed.

End JsonFacts.

(* ===================================================================== *)
(** ** Properties of the stream consumer *)
(* ===================================================================== *)

Module ConsumerFacts.
Import Js Json Consumer.

(** *** Lines and residue of a buffer *)

Lemma split_cut (s : jsstring) :
  split s LF = fst (cut s) ++ [snd (cut s)].
Proof.
  induction s as [|c r IH]; simpl; [reflexivity|].
  destruct (cut r) as [ls rest]; simpl in IH.
  destruct (N.eqb c LF); simpl.
  - now rewrite IH.
  - rewrite IH. now destruct ls.
Qed.

Lemma pop_snoc {A : Type} (l : list A) (x : A) : pop (l ++ [x]) = (l, Some x).
Proof.
  induction l as [|y l IH]; [reflexivity|].
  change ((y :: l) ++ [x]) with (y :: (l ++ [x])).
  cbn [pop]. rewrite IH.
  destruct (l ++ [x]) eqn:E; [now destruct l|reflexivity].
Qed.

Lemma pop_split (s : jsstring) :
  pop (split s LF) = (fst (cut s), Some (snd (cut s))).
Proof. rewrite split_cut. apply pop_snoc. Qed.

Lemma or_empty_Some (s : jsstring) : or_empty (Some s) = s.
Proof. now destruct s. Qed.

Lemma cut_app (a b : jsstring) :
  cut (a ++ b) =
  (fst (cut a) ++ fst (cut (snd (cut a) ++ b)), snd (cut (snd (cut a) ++ b))).
Proof.
  induction a as [|c a IH]; simpl.
  - now destruct (cut b).
  - rewrite IH. destruct (cut a) as [la ra]; simpl.
    destruct (N.eqb c LF) eqn:E; simpl.
    + reflexivity.
    + destruct la as [|h t]; simpl.
      * rewrite E. destruct (cut (ra ++ b)) as [lb rb]; simpl.
        now destruct lb.
      * reflexivity.
Qed.

Lemma cut_line (l s : jsstring) :
  no_newline l = true ->
  cut (l ++ LF :: s) = (l :: fst (cut s), snd (cut s)).
Proof.
  induction l as [|c l IH]; simpl; intros H.
  - now destruct (cut s).
  - apply andb_prop in H as [Hc Hl]. rewrite (IH Hl).
    apply negb_true_iff in Hc. now rewrite Hc.
Qed.

Lemma cut_residue (l : jsstring) : no_newline l = true -> cut l = ([], l).
Proof.
  induction l as [|c l IH]; simpl; intros H; [reflexivity|].
  apply andb_prop in H as [Hc Hl]. rewrite (IH Hl).
  apply negb_true_iff in Hc. now rewrite Hc.
Qed.

Lemma cut_unlines (ls : list jsstring) :
  forallb no_newline ls = true -> cut (unlines ls) = (ls, []).
Proof.
  induction ls as [|l ls IH]; simpl; intros H; [reflexivity|].
  apply andb_prop in H as [Hl Hls].
  rewrite <- app_assoc. simpl. rewrite (cut_line _ _ Hl), (IH Hls).
  reflexivity.
Qed.

(** *** The decoder over concatenated chunks *)

Section Decoder.
Context `{TD : TextDecoder}.

Lemma decode_from (value : list byte) (d : dstate) (out : jsstring) :
  fold_left feed value (d, out) =
  (fst (fold_left feed value (d, [])), out ++ snd (fold_left feed value (d, []))).
Proof.
  revert d out.
  induction value as [|b value IH]; intros d out; cbn [fold_left].
  - cbn. now rewrite app_nil_r.
  - unfold feed at 2 4 6. cbn [fst snd app].
    destruct (dstep d b) as [d' o]. rewrite (IH d' (out ++ o)), (IH d' o).
    cbn [fst snd]. now rewrite app_assoc.
Qed.

Lemma decode_app (d : dstate) (a b : list byte) :
  decode d (a ++ b) =
  (fst (decode (fst (decode d a)) b),
   snd (decode d a) ++ snd (decode (fst (decode d a)) b)).
Proof.
  unfold decode. rewrite fold_left_app.
  destruct (fold_left feed a (d, [])) as [d1 t1]. cbn [fst snd].
  apply decode_from.
Qed.

(** *** One chunk or two *)

Lemma on_chunk_eq (st : state) (value : list byte) :
  on_chunk st value =
  let text := snd (decode (decoder st) value) in
  let c := cut (buffer st ++ text) in
  let r := process_lines (fst c) (eventCount st, console st) in
  {| decoder := fst (decode (decoder st) value); buffer := snd c;
     eventCount := fst r; console := snd r |}.
Proof.
  unfold on_chunk. destruct (decode (decoder st) value) as [d text].
  cbn [fst snd]. rewrite pop_split.
  destruct (cut (buffer st ++ text)) as [ls rest]. cbn [fst snd].
  destruct (process_lines ls (eventCount st, console st)) as [n out].
  cbn [fst snd]. now rewrite or_empty_Some.
Qed.

Lemma on_chunk_app (st : state) (a b : list byte) :
  on_chunk (on_chunk st a) b = on_chunk st (a ++ b).
Proof.
  rewrite (on_chunk_eq st (a ++ b)), (on_chunk_eq (on_chunk st a) b),
    (on_chunk_eq st a).
  cbn [decoder buffer eventCount console].
  rewrite decode_app. cbn [fst snd].
  set (d1 := fst (decode (decoder st) a)).
  set (t1 := snd (decode (decoder st) a)).
  set (t2 := snd (decode d1 b)).
  rewrite (app_assoc (buffer st) t1 t2), (cut_app (buffer st ++ t1) t2).
  cbn [fst snd].
  set (c1 := cut (buffer st ++ t1)). set (c2 := cut (snd c1 ++ t2)).
  unfold process_lines. rewrite fold_left_app, <- surjective_pairing.
  reflexivity.
Qed.

Lemma loop_concat (chunks : list (list byte)) (st : state) (value : list byte) :
  fold_left on_chunk chunks (on_chunk st value) =
  on_chunk st (value ++ List.concat chunks).
Proof.
  revert st value. induction chunks as [|c chunks IH]; intros st value; simpl.
  - now rewrite app_nil_r.
  - rewrite on_chunk_app, IH. now rewrite app_assoc.
Qed.

Lemma testStream_concat (chunks : list (list byte)) :
  testStream chunks = testStream [List.concat chunks].
Proof.
  unfold testStream. destruct chunks as [|c chunks]; [reflexivity|].
  cbn [fold_left List.concat]. apply loop_concat.
Qed.

(** C2. Frame reassembly across chunk boundaries: however the bytes of a
    stream are cut into chunks, the consumer ends with the same frames, in
    the same order, as when it reads the whole stream as one chunk; so do
    its event counter, its residual buffer and its whole console. *)
Theorem chunking_invariance (chunks : list (list byte)) :
  frames (testStream chunks) = frames (testStream [List.concat chunks]) /\
  testStream chunks = testStream [List.concat chunks].
Proof.
  assert (E : testStream chunks = testStream [List.concat chunks]).
  { unfold testStream. destruct chunks as [|c chunks].
    - (* no chunk: the empty chunk finds nothing in the buffer *)
      reflexivity.
    - cbn [fold_left List.concat]. apply loop_concat. }
  split; [now rewrite E|exact E].
Qed.

End Decoder.

Example sample_whole : frames (testStream [sample]) = sample_frames.
Proof. vm_compute. reflexivity. Qed.

Example sample_bytewise :
  frames (testStream (map (fun b => [b]) sample)) = sample_frames.
Proof. vm_compute. reflexivity. Qed.

Example sample_cut_in_character :
  frames (testStream [firstn 56 sample; skipn 56 sample]) = sample_frames
  /\ nth 55 sample x00 = xc3 /\ nth 56 sample x00 = xa9.
Proof. vm_compute. repeat split. Qed.

(** *** The done sentinel *)

(** C3, as stated, fails: the loop passes over the sentinel with
    [continue], writes nothing for it, and the line after it still yields
    its frame. *)
Lemma done_sentinel_counterexample :
  let done := lit "data: [DONE]" in
  let later := lit (q "data: {'type':'response.completed'}") in
  ~ yields_nothing_after_done [done; later]
  /\ is_done_line done = true
  /\ process_lines [done] (0, []) = (0, [])
  /\ process_lines [done; later] (0, [])
     = (1, [LogEvent 1 (Some (JString (lit "response.completed")))]).
Proof.
  cbv zeta. split; [|vm_compute; repeat split].
  intros H.
  specialize (H [] (lit "data: [DONE]")
                [lit (q "data: {'type':'response.completed'}")]
                eq_refl eq_refl).
  vm_compute in H. discriminate H.
Qed.

Lemma process_done_line (line : jsstring) (acc : nat * list log_entry) :
  is_done_line line = true -> process_line line acc = acc.
Proof.
  unfold is_done_line, process_line. intros H.
  apply andb_prop in H as [Hp Hd]. destruct acc as [n out].
  rewrite Hp, Hd. cbn [negb].
  destruct (negb (truthy (trim line))); [reflexivity|].
  now rewrite orb_true_r.
Qed.

(** C3, amended: a done line is skipped. It yields no frame and no
    marker, and the lines before and after it are processed as if it were
    not there. *)
Theorem done_line_is_skipped
  (pre post : list jsstring) (line : jsstring) (acc : nat * list log_entry) :
  is_done_line line = true ->
  process_lines (pre ++ line :: post) acc = process_lines (pre ++ post) acc.
Proof.
  intros H. unfold process_lines. rewrite !fold_left_app. cbn [fold_left].
  now rewrite (process_done_line _ _ H).
Qed.

Lemma done_line_is_skipped_witness :
  process_lines
    ([lit (q "data: {'type':'a'}")] ++ lit "data:  [DONE] "
       :: [lit (q "data: {'type':'b'}")]) (0, []) =
  process_lines
    ([lit (q "data: {'type':'a'}")] ++ [lit (q "data: {'type':'b'}")]) (0, []).
Proof. apply done_line_is_skipped. reflexivity. Defined.

(** *** A malformed line between two deltas *)

Lemma eqb_eq (a b : jsstring) : eqb a b = true -> a = b.
Proof.
  revert b. induction a as [|x a IH]; intros [|y b] H; try discriminate.
  - reflexivity.
  - simpl in H. apply andb_prop in H as [Hx Hr].
    apply N.eqb_eq in Hx. now rewrite Hx, (IH b Hr).
Qed.

Lemma trimStart_snoc (s : jsstring) (c : char16) :
  isWhiteSpace c = false -> truthy (trimStart (s ++ [c])) = true.
Proof.
  intros Hc. induction s as [|x s IH]; simpl.
  - now rewrite Hc.
  - destruct (isWhiteSpace x); [exact IH|reflexivity].
Qed.

Lemma truthy_rev (s : jsstring) : truthy (rev s) = truthy s.
Proof.
  destruct s as [|x s]; [reflexivity|]. simpl.
  now destruct (rev s).
Qed.

Lemma data_line_not_blank (line : jsstring) :
  startsWith line DATA_PREFIX = true -> truthy (trim line) = true.
Proof.
  destruct line as [|c line]; [discriminate|]. intros H.
  change (startsWith (c :: line) DATA_PREFIX)
    with (N.eqb 100 c && startsWith line (lit "ata: ")) in H.
  apply andb_prop in H as [Hc _]. apply N.eqb_eq in Hc. subst c.
  unfold trim, trimEnd. cbn [trimStart isWhiteSpace].
  change (trimStart (100%N :: line)) with (100%N :: line).
  rewrite truthy_rev. cbn [rev]. now apply trimStart_snoc.
Qed.

Lemma parsed_payload (data : jsstring) (v : json) :
  JSON_parse data = Some v ->
  negb (truthy data) || eqb data DONE = false.
Proof.
  intros H. destruct data as [|c data]; [discriminate|]. cbn [truthy negb orb].
  destruct (eqb (c :: data) DONE) eqn:E; [|reflexivity].
  apply eqb_eq in E. rewrite E in H. vm_compute in H. discriminate.
Qed.

Lemma process_delta_line (line : jsstring) (v : jsval) (n : nat)
      (out : list log_entry) :
  delta_of line = Some v ->
  process_line line (n, out) = (S n, out ++ [LogDelta (S n) v]).
Proof.
  unfold delta_of, process_line. intros H.
  destruct (startsWith line DATA_PREFIX) eqn:Hp; [|discriminate].
  rewrite (data_line_not_blank _ Hp). cbn [negb].
  destruct (JSON_parse (trim (slice line 6))) as [event|] eqn:Hj;
    [|discriminate].
  rewrite (parsed_payload _ _ Hj).
  destruct event; try discriminate. cbn [get_prop].
  destruct (is_string (member (lit "type") members) DELTA_TYPE);
    [|discriminate].
  now inversion H.
Qed.

Lemma process_undecodable_line (line : jsstring) (n : nat)
      (out : list log_entry) :
  undecodable line ->
  exists out', process_line line (n, out) = (n, out')
               /\ filter is_frame out' = filter is_frame out.
Proof.
  unfold undecodable, process_line. intros H. rewrite H.
  destruct (negb (truthy (trim line))); [now exists out|].
  destruct (negb (startsWith line DATA_PREFIX)); [now exists out|].
  destruct (negb (truthy (trim (slice line 6))) || eqb (trim (slice line 6)) DONE);
    [now exists out|].
  eexists; split; [reflexivity|].
  rewrite filter_app. cbn. apply app_nil_r.
Qed.

Lemma process_blank_line (acc : nat * list log_entry) :
  process_line [] acc = acc.
Proof. now destruct acc. Qed.

Lemma filter_frames_app (a b : list log_entry) :
  filter is_frame (a ++ b) = filter is_frame a ++ filter is_frame b.
Proof. apply filter_app. Qed.

(** The three lines, one after another, from any counter and console;
    blank lines may separate them as on the wire. *)
Lemma process_three_lines (l1 bad l2 : jsstring) (v1 v2 : jsval) (n : nat)
      (out : list log_entry) :
  delta_of l1 = Some v1 -> delta_of l2 = Some v2 -> undecodable bad ->
  let r := process_lines [l1; []; bad; []; l2; []] (n, out) in
  fst r = S (S n) /\
  frames_of r =
  filter is_frame out ++ [LogDelta (S n) v1; LogDelta (S (S n)) v2].
Proof.
  intros H1 H2 Hb. unfold process_lines. cbn [fold_left].
  rewrite !process_blank_line, (process_delta_line _ _ _ _ H1).
  destruct (process_undecodable_line bad (S n) (out ++ [LogDelta (S n) v1]) Hb)
    as (out' & E & F).
  rewrite E, (process_delta_line _ _ _ _ H2).
  unfold frames_of. cbn [fst snd]. split; [reflexivity|].
  rewrite filter_frames_app, F, filter_frames_app. cbn.
  now rewrite <- app_assoc.
Qed.

Section Resilience.
Context `{TD : TextDecoder}.


End Resilience.


End ConsumerFacts.

(* ===================================================================== *)
(** ** Properties of the relay *)
(* ===================================================================== *)

Module RelayFacts.
Import Relay.
Local Open Scope string_scope.

Lemma yields_forwarded (lines : list string) :
  yields (flat_map (fun line => [Recv line; Yield (forward line)]) lines)
  = map forward lines.
Proof. induction lines as [|l lines IH]; simpl; [reflexivity|now rewrite IH]. Qed.

Lemma received_forwarded (lines : list string) :
  received (flat_map (fun line => [Recv line; Yield (forward line)]) lines)
  = lines.
Proof. induction lines as [|l lines IH]; simpl; [reflexivity|now rewrite IH]. Qed.

Lemma invoke_stream_yields
  (env : environ) (self : DatabricksEndpointHandler) (messages : list message)
  (client_request_id : string) (request : Request) (server : call -> upstream)
  (host token : string) :
  get_credentials env request = inr (host, token) ->
  let r := invoke_stream env self messages client_request_id request server in
  yields (trace r)
  = request_id_frame client_request_id :: map forward (received (trace r)).
Proof.
  intros Hc. unfold invoke_stream. rewrite Hc.
  destruct (server (build_call self host token messages)) as [e|st lines f];
    cbn [trace yields received]; [reflexivity|].
  now rewrite yields_forwarded, received_forwarded.
Qed.

(** *** The first frame *)

(** C1, as stated, fails: the credentials are looked up before the first
    [yield], so an invocation whose lookup raises emits nothing at all. *)
Lemma first_frame_counterexample :
  ~ starts_with_request_id
      (invoke_stream deployed agent01 hello "req-abc123def456"
                     {| headers := [] |} healthy)
      "req-abc123def456".
Proof. intros [rest H]. discriminate H. Qed.

(** C1, amended: when the credential lookup returns, the first thing the
    generator does is to yield the request-id frame; the upstream call
    comes after it, and whatever the upstream does, the frames sent
    downstream are that frame followed by the forwarded upstream lines.
    When the lookup raises, the generator raises before any frame. *)
Theorem request_id_frame_first
  (env : environ) (self : DatabricksEndpointHandler) (messages : list message)
  (client_request_id : string) (request : Request) (server : call -> upstream) :
  let r := invoke_stream env self messages client_request_id request server in
  match get_credentials env request with
  | inl e => r = {| trace := []; result := Raised e |}
  | inr (host, token) =>
      (exists rest,
          trace r = Yield (request_id_frame client_request_id)
                    :: Post (build_call self host token messages) :: rest)
      /\ yields (trace r)
         = request_id_frame client_request_id
           :: map forward (received (trace r))
  end.
Proof.
  intros r.
  destruct (get_credentials env request) as [e|[host token]] eqn:Hc.
  - subst r. unfold invoke_stream. now rewrite Hc.
  - split; [|now apply (invoke_stream_yields _ _ _ _ _ _ host token)].
    subst r. unfold invoke_stream. rewrite Hc.
    destruct (server (build_call self host token messages)) as [e|st lines f];
      cbn [trace]; eexists; reflexivity.
Qed.

(** *** Upstream failures *)

(** C5, as stated, fails: nothing catches the exception of a failed
    upstream call. After a timeout the only frame sent is the request-id
    frame, and the generator ends by raising. *)
Lemma error_frame_counterexample :
  let r := invoke_stream local agent01 hello "req-1" {| headers := [] |}
                         unreachable in
  ~ error_frame_emitted r "req-1"
  /\ yields (trace r) = [request_id_frame "req-1"]
  /\ result r = Raised TimeoutException.
Proof.
  cbv zeta. split; [|split; reflexivity].
  intros (err & Hin & Hne & _).
  cbn in Hin. destruct Hin as [E|[]]. apply Hne. now rewrite <- E.
Qed.

(** C5, amended: the relay sends no frame of its own for a failure. A
    connection error or a timeout leaves the generator as an exception
    after the request-id frame; an error while the body is read leaves it
    after the lines forwarded so far; a response is forwarded line by
    line whatever its status. In each case the generator ends. *)
Theorem upstream_failure_propagates
  (env : environ) (self : DatabricksEndpointHandler) (messages : list message)
  (client_request_id : string) (request : Request) (server : call -> upstream)
  (host token : string) :
  get_credentials env request = inr (host, token) ->
  let r := invoke_stream env self messages client_request_id request server in
  ~ error_frame_emitted r client_request_id
  /\ match server (build_call self host token messages) with
     | Refuses e =>
         yields (trace r) = [request_id_frame client_request_id]
         /\ result r = Raised e
     | Responds _ lines (Some e) =>
         yields (trace r) = request_id_frame client_request_id
                            :: map forward lines
         /\ result r = Raised e
     | Responds _ lines None =>
         yields (trace r) = request_id_frame client_request_id
                            :: map forward lines
         /\ result r = Returned
     end.
Proof.
  intros Hc r. split.
  - intros (err & Hin & Hne & Hnf).
    pose proof (invoke_stream_yields env self messages client_request_id
                                     request server host token Hc) as H.
    cbv zeta in H. fold r in H. rewrite H in Hin. destruct Hin as [E|Hin]; [|now apply Hnf].
    apply Hne. now rewrite E.
  - subst r. unfold invoke_stream. rewrite Hc.
    destruct (server (build_call self host token messages)) as [e|st lines f];
      cbn [trace yields result].
    + now split.
    + rewrite yields_forwarded. destruct f; now split.
Qed.

Lemma upstream_failure_propagates_witness :
  let r := invoke_stream local agent01 hello "req-1" {| headers := [] |}
             (fun _ => Responds 503 ["Service Unavailable"] (Some ReadError)) in
  ~ error_frame_emitted r "req-1"
  /\ yields (trace r) = [request_id_frame "req-1"; forward "Service Unavailable"]
  /\ result r = Raised ReadError.
Proof.
  exact (upstream_failure_propagates local agent01 hello "req-1"
           {| headers := [] |}
           (fun _ => Responds 503 ["Service Unavailable"] (Some ReadError))
           "https://dbc.example" "dapi0123" eq_refl).
Defined.

End RelayFacts.

(* ===================================================================== *)
(** ** Properties of the navigation context *)
(* ===================================================================== *)

Module NavigationFacts.
Import Navigation.
Local Open Scope string_scope.

(** C6. While [isStreaming] is set, [handleNewChat] and [handleChatSelect]
    raise a notice and leave the whole navigation state as it was: the
    current chat, the chat list and the streaming flag in particular. No
    route is pushed. *)
Theorem streaming_blocks_navigation
  (b : browser) (chatId : string) (st : NavState) :
  isStreaming st = true ->
  handleNewChat b st
  = (st, [ToastInfo "Please wait for the current response to complete"
                    "You can start a new chat once the response finishes"])
  /\ handleChatSelect b chatId st
     = (st, [ToastInfo "Please wait for the current response to complete"
                       "You can switch chats once the response finishes"])
  /\ currentChatId (fst (handleNewChat b st)) = currentChatId st
  /\ chats (fst (handleNewChat b st)) = chats st
  /\ isStreaming (fst (handleNewChat b st)) = true
  /\ currentChatId (fst (handleChatSelect b chatId st)) = currentChatId st
  /\ chats (fst (handleChatSelect b chatId st)) = chats st
  /\ isStreaming (fst (handleChatSelect b chatId st)) = true.
Proof.
  intros H. unfold handleNewChat, handleChatSelect. rewrite H. cbn [fst].
  repeat split; assumption.
Qed.

Lemma streaming_blocks_navigation_witness :
  isStreaming busy = true
  /\ handleNewChat {| production := false; innerWidth := 800 |} busy
     = (busy, [ToastInfo "Please wait for the current response to complete"
                         "You can start a new chat once the response finishes"])
  /\ handleChatSelect {| production := false; innerWidth := 800 |} "chat-2" busy
     = (busy, [ToastInfo "Please wait for the current response to complete"
                         "You can switch chats once the response finishes"]).
Proof.
  split; [reflexivity|].
  pose proof (streaming_blocks_navigation
                {| production := false; innerWidth := 800 |} "chat-2" busy
                eq_refl) as (H1 & H2 & _).
  split; [exact H1|exact H2].
Defined.

(** Without a stream the same calls do change the state. *)
Example idle_new_chat :
  handleNewChat {| production := false; innerWidth := 800 |}
                (setIsStreaming false busy)
  = ({| pathname := "/chat"; currentChatId := None; chats := chats busy;
        isStreaming := false; isSidebarOpen := true;
        isSidebarCollapsed := false;
        selectedAgentId := "databricks-agent-01"; isEditMode := false |},
     [RouterPush "/chat"; ConsoleLog "Starting new chat session"]).
Proof. reflexivity. Qed.

Example idle_chat_select :
  handleChatSelect {| production := true; innerWidth := 800 |} "chat-2"
                   (setIsStreaming false busy)
  = ({| pathname := "/chat"; currentChatId := Some "chat-2";
        chats := chats busy; isStreaming := false; isSidebarOpen := false;
        isSidebarCollapsed := false;
        selectedAgentId := "databricks-agent-01"; isEditMode := false |},
     [RouterPush "/chat"]).
Proof. reflexivity. Qed.

End NavigationFacts.

(* ===================================================================== *)
(** ** Properties of the configuration loader *)
(* ===================================================================== *)

Module ConfigFacts.
Import List Js Json Config.
Local Open Scope string_scope.

Lemma run_app (a b : list event) (st : module_state) :
  run (a ++ b) st
  = (fst (run b (fst (run a st))),
     (snd (run a st) ++ snd (run b (fst (run a st))))%list).
Proof.
  revert st. induction a as [|e a IH]; intros st.
  - cbn. now destruct (run b st).
  - cbn [app run]. destruct (step st e) as [st1 o]. rewrite IH.
    destruct (run a st1) as [st2 os]. reflexivity.
Qed.

Lemma loadConfig_cached (net : fetch_result) (st : module_state) :
  ToBoolean (cachedConfig st) = true ->
  loadConfig net st = (cachedConfig st, st).
Proof. intros H. unfold loadConfig. now rewrite H. Qed.

Lemma loadConfig_first (net : fetch_result) (st : module_state) :
  ToBoolean (cachedConfig st) = false ->
  fst (loadConfig net st) = resolved net
  /\ cachedConfig (snd (loadConfig net st)) = resolved net
  /\ fetches (snd (loadConfig net st)) = S (fetches st)
  /\ exists line,
       console (snd (loadConfig net st)) = (console st ++ [line])%list.
Proof.
  intros H. unfold loadConfig. rewrite H.
  destruct net as [|[|] [c|]]; cbn; repeat split; eexists; reflexivity.
Qed.

Lemma loadConfig_caches (net : fetch_result) (st : module_state) :
  cachedConfig (snd (loadConfig net st)) = fst (loadConfig net st).
Proof.
  destruct (ToBoolean (cachedConfig st)) eqn:E.
  - now rewrite (loadConfig_cached net st E).
  - destruct (loadConfig_first net st E) as (H1 & H2 & _). now rewrite H1, H2.
Qed.

Lemma loadConfig_idle (net : fetch_result) (st : module_state) :
  idle st -> idle (snd (loadConfig net st)).
Proof.
  unfold idle, loadConfig. intros H.
  destruct (ToBoolean (cachedConfig st)); [exact H|].
  destruct net as [|[|] [c|]]; exact H.
Qed.

(** A call that is awaited alone goes through the steps of the module as
    [loadConfig] says. *)
Lemma run_awaited (net : fetch_result) (st : module_state) :
  idle st ->
  fst (run (awaited net) st) = snd (loadConfig net st)
  /\ returns (snd (run (awaited net) st)) = [fst (loadConfig net st)].
Proof.
  destruct st as [cache af aj f out]. intros [Hf Hj]. cbn in Hf, Hj. subst.
  unfold loadConfig, awaited. cbn [cachedConfig].
  destruct (ToBoolean cache) eqn:E.
  - destruct net as [|[|] [c|]]; cbn; rewrite E; cbn; now split.
  - destruct net as [|[|] [c|]]; cbn; rewrite E; cbn; now split.
Qed.

(** Once a truthy value is cached and no call is suspended, nothing but
    [resetConfig] changes the module. *)
Lemma run_keeps_cache (events : list event) (st : module_state) :
  idle st -> ToBoolean (cachedConfig st) = true ->
  forallb (fun e => negb (is_reset e)) events = true ->
  run events st = (st, map (answer (cachedConfig st)) events).
Proof.
  intros [Hf Hj] Hc. induction events as [|e events IH]; intros Hn;
    [reflexivity|].
  cbn [forallb] in Hn. apply andb_prop in Hn as [He Hn].
  cbn [run map].
  assert (E : step st e = (st, answer (cachedConfig st) e)).
  { destruct e; cbn [step answer]; try discriminate He.
    - now rewrite Hc.
    - now rewrite Hf.
    - now rewrite Hj.
    - unfold getConfig. now rewrite Hc. }
  rewrite E, (IH Hn). reflexivity.
Qed.

Lemma schedule_no_reset (calls : list call) :
  forallb (fun c => negb (is_reset_call c)) calls = true ->
  forallb (fun e => negb (is_reset e)) (schedule calls) = true.
Proof.
  induction calls as [|c calls IH]; [reflexivity|].
  cbn [forallb schedule flat_map]. intros H. apply andb_prop in H as [Hc H].
  rewrite forallb_app. fold (schedule calls). rewrite (IH H), andb_true_r.
  destruct c as [[|[|] b]| |]; try reflexivity. discriminate Hc.
Qed.

Lemma step_call (c : call) (st : module_state) :
  idle st ->
  fst (run (events_of c) st)
  = match c with
    | CallLoadConfig net => snd (loadConfig net st)
    | CallGetConfig => st
    | CallResetConfig => resetConfig st
    end.
Proof.
  intros H. destruct c; [|reflexivity|reflexivity].
  exact (proj1 (run_awaited net st H)).
Qed.

Lemma schedule_cons (c : call) (calls : list call) (st : module_state) :
  fst (run (schedule (c :: calls)) st)
  = fst (run (schedule calls) (fst (run (events_of c) st))).
Proof. cbn [schedule flat_map]. now rewrite run_app. Qed.

Lemma schedule_idle (calls : list call) (st : module_state) :
  idle st -> idle (fst (run (schedule calls) st)).
Proof.
  revert st. induction calls as [|c calls IH]; intros st H; [exact H|].
  rewrite schedule_cons, (step_call c st H). apply IH.
  destruct c; [now apply loadConfig_idle|exact H|exact H].
Qed.

Lemma schedule_after_reset (calls : list call) (st : module_state) :
  idle st -> ToBoolean (cachedConfig st) = false ->
  forallb (fun c => negb (is_reset_call c)) calls = true ->
  getConfig (fst (run (schedule calls) st))
  = match first_truthy_load calls with
    | Some config => inr config
    | None => inl (MkError "Config not loaded yet. Call loadConfig() first.")
    end.
Proof.
  revert st. induction calls as [|c calls IH]; intros st Hi Hc Hn.
  - cbn. unfold getConfig. now rewrite Hc.
  - cbn [forallb] in Hn. apply andb_prop in Hn as [Hx Hn].
    rewrite schedule_cons, (step_call c st Hi).
    destruct c as [net| |]; cbn [first_truthy_load];
      [|now apply IH|discriminate Hx].
    destruct (loadConfig_first net st Hc) as (_ & H2 & _).
    pose proof (loadConfig_idle net st Hi) as Hi1.
    destruct (ToBoolean (resolved net)) eqn:Ht.
    + rewrite run_keeps_cache;
        [|exact Hi1|now rewrite H2|now apply schedule_no_reset].
      cbn [fst]. unfold getConfig. now rewrite H2, Ht.
    + apply IH; [exact Hi1|now rewrite H2|exact Hn].
Qed.

(** C10. [loadConfig] is memoized once it has resolved with a truthy
    value and no other call is in flight, and [getConfig] follows the
    cache.

    - A call of [loadConfig] made while no other is suspended, and awaited
      alone, goes through the steps of the module to the value and the
      state that [loadConfig] gives. If the value it resolves with is
      truthy (as the default is, and every object), then whatever comes
      later without a [resetConfig] leaves the module as it is: every
      later call of [loadConfig] returns that same value at once and
      issues no fetch, and [getConfig] returns it.
    - When the cache was falsy, that value is what the network gave: the
      fetched body, or the default after a response that is not ok, a
      body that does not decode, or a fetch that throws.
    - From the start, or after a [resetConfig], with calls that come one
      after another, [getConfig] returns the value of the first
      [loadConfig] that resolved with a truthy value, and throws when
      there was none. *)
Theorem loadConfig_memoized
  (net net' : fetch_result) (st : module_state)
  (later : list event) (before after : list call) :
  idle st ->
  ToBoolean (fst (loadConfig net st)) = true ->
  forallb (fun e => negb (is_reset e)) later = true ->
  forallb (fun c => negb (is_reset_call c)) after = true ->
  let config := fst (loadConfig net st) in
  let st1 := snd (loadConfig net st) in
  fst (run (awaited net) st) = st1
  /\ returns (snd (run (awaited net) st)) = [config]
  /\ run later st1 = (st1, map (answer config) later)
  /\ loadConfig net' (fst (run later st1)) = (config, st1)
  /\ fetches (fst (run later st1)) = fetches st1
  /\ getConfig (fst (run later st1)) = inr config
  /\ (ToBoolean (cachedConfig st) = false ->
      config = resolved net /\ fetches st1 = S (fetches st))
  /\ getConfig (fst (run (schedule (before ++ CallResetConfig :: after)) init))
     = match first_truthy_load after with
       | Some c => inr c
       | None => inl (MkError "Config not loaded yet. Call loadConfig() first.")
       end
  /\ getConfig (fst (run (schedule after) init))
     = match first_truthy_load after with
       | Some c => inr c
       | None => inl (MkError "Config not loaded yet. Call loadConfig() first.")
       end.
Proof.
  intros Hi Ht Hl Ha. cbv zeta.
  pose proof (loadConfig_caches net st) as Hc.
  pose proof (loadConfig_idle net st Hi) as Hi1.
  destruct (run_awaited net st Hi) as [Hr1 Hr2].
  assert (Hk : run later (snd (loadConfig net st))
               = (snd (loadConfig net st),
                  map (answer (fst (loadConfig net st))) later)).
  { rewrite <- Hc. apply run_keeps_cache; [exact Hi1|now rewrite Hc|exact Hl]. }
  split; [exact Hr1|]. split; [exact Hr2|]. split; [exact Hk|].
  rewrite Hk. cbn [fst].
  split; [rewrite loadConfig_cached; now rewrite Hc|].
  split; [reflexivity|].
  split; [unfold getConfig; now rewrite Hc, Ht|].
  split.
  - intros Hn. destruct (loadConfig_first net st Hn) as (H1 & _ & H3 & _).
    now split.
  - split.
    + unfold schedule. rewrite flat_map_app, run_app. cbn [fst flat_map].
      fold (schedule before). fold (schedule after).
      change (events_of CallResetConfig ++ schedule after)%list
        with (ResetConfig :: schedule after).
      cbn [run step].
      destruct (run (schedule after) (resetConfig (fst (run (schedule before) init))))
        as [st2 os] eqn:E.
      cbn [fst].
      change st2 with (fst (st2, os)). rewrite <- E.
      apply schedule_after_reset; [|reflexivity|exact Ha].
      pose proof (schedule_idle before init (conj eq_refl eq_refl)) as Hb.
      exact Hb.
    + apply schedule_after_reset; [now split|reflexivity|exact Ha].
Qed.

Lemma loadConfig_memoized_witness :
  let st1 := snd (loadConfig (FetchResponse false None) init) in
  run [Calls; FetchSettles (Some true); GetConfig; Calls] st1
  = (st1, [Returns (object_of DEFAULT_CONFIG); Silent;
           Gets (inr (object_of DEFAULT_CONFIG));
           Returns (object_of DEFAULT_CONFIG)])
  /\ loadConfig (FetchResponse true (Some served)) st1
     = (object_of DEFAULT_CONFIG, st1)
  /\ fetches st1 = 1
  /\ getConfig (fst (run (schedule [CallLoadConfig FetchThrows; CallResetConfig;
                                    CallGetConfig;
                                    CallLoadConfig (FetchResponse true (Some JNull));
                                    CallLoadConfig (FetchResponse true (Some served));
                                    CallLoadConfig FetchThrows]) init))
     = inr served
  /\ getConfig (fst (run (schedule [CallLoadConfig FetchThrows; CallResetConfig])
                         init))
     = inl (MkError "Config not loaded yet. Call loadConfig() first.").
Proof.
  pose proof (loadConfig_memoized (FetchResponse false None)
                (FetchResponse true (Some served)) init
                [Calls; FetchSettles (Some true); GetConfig; Calls]
                [CallLoadConfig FetchThrows]
                [CallGetConfig;
                 CallLoadConfig (FetchResponse true (Some JNull));
                 CallLoadConfig (FetchResponse true (Some served));
                 CallLoadConfig FetchThrows]
                (conj eq_refl eq_refl) eq_refl eq_refl eq_refl) as H.
  cbv zeta in H. destruct H as (_ & _ & H3 & _ & _ & _ & _ & H8 & _).
  cbv zeta. split; [exact H3|]. split; [reflexivity|]. split; [reflexivity|].
  split; [exact H8|reflexivity].
Defined.

(** C10, as first stated, fails in two ways. A body that is a falsy JSON
    value ([null] here) is returned by the call but leaves the cache
    falsy: [getConfig] throws although a call has completed, and the next
    call fetches again and returns another value. And two calls that
    overlap both fetch; the one that resolves last overwrites the cache,
    so that later calls return a value other than the one the first
    resolved with, with no [resetConfig] in between. *)
Lemma memoization_counterexample :
  let null_body := FetchResponse true (Some JNull) in
  let st1 := snd (loadConfig null_body init) in
  ~ memoized null_body init
  /\ fst (run (awaited null_body) init) = st1
  /\ returns (snd (run (awaited null_body) init)) = [JNull]
  /\ getConfig st1 = inl (MkError "Config not loaded yet. Call loadConfig() first.")
  /\ fst (loadConfig (FetchResponse true (Some served)) st1) = served
  /\ fetches (snd (loadConfig (FetchResponse true (Some served)) st1)) = 2
  /\ snd (run [Calls; Calls; FetchSettles (Some true); JsonSettles (Some served);
               Calls; FetchSettles (Some false); Calls] init)
     = [Silent; Silent; Silent; Returns served;
        Returns served; Returns (object_of DEFAULT_CONFIG);
        Returns (object_of DEFAULT_CONFIG)]
  /\ fetches (fst (run [Calls; Calls; FetchSettles (Some true);
                        JsonSettles (Some served);
                        Calls; FetchSettles (Some false); Calls] init)) = 2.
Proof.
  cbv zeta. split; [|repeat split].
  intros H. specialize (H (FetchResponse true (Some served))).
  apply (f_equal fst) in H. discriminate H.
Qed.

End ConfigFacts.

(* ===================================================================== *)
(** ** Properties of the event-folding state machine *)
(* ===================================================================== *)

Module FoldingFacts.
Import Folding.
Local Open Scope string_scope.

Lemma append_assoc (a b c : string) : (a ++ b) ++ c = a ++ (b ++ c).
Proof. induction a as [|x a IH]; simpl; [reflexivity|now rewrite IH]. Qed.

Lemma append_empty_r (a : string) : a ++ "" = a.
Proof. induction a as [|x a IH]; simpl; [reflexivity|now rewrite IH]. Qed.

Section Merge.
Variable merge_arguments : string -> string -> string.

Abbreviation fold_frame := (fold_frame merge_arguments).
Abbreviation fold_frames := (fold_frames merge_arguments).
Abbreviation upsert_call := (upsert_call merge_arguments).
Abbreviation step := (step merge_arguments).
Abbreviation run := (run merge_arguments).

(** *** Text *)

Lemma fold_deltas (deltas : list string) (m : AccumulatedMessage) :
  fold_frames (map TextDelta deltas) m
  = {| textContent := textContent m ++ join deltas; toolCalls := toolCalls m;
       traceMetadata := traceMetadata m |}.
Proof.
  revert m. induction deltas as [|d deltas IH]; intros m; cbn.
  - rewrite append_empty_r. now destruct m.
  - unfold Folding.fold_frames in IH. rewrite IH. cbn.
    now rewrite append_assoc.
Qed.

Lemma fold_frame_extends (m : AccumulatedMessage) (f : StreamFrame) :
  exists suffix, textContent (fold_frame m f) = textContent m ++ suffix.
Proof.
  destruct f; cbn; try (exists ""; now rewrite append_empty_r).
  now exists delta.
Qed.

Lemma fold_frames_extends (frames : list StreamFrame) (m : AccumulatedMessage) :
  exists suffix, textContent (fold_frames frames m) = textContent m ++ suffix.
Proof.
  revert m. induction frames as [|f frames IH]; intros m; cbn.
  - exists "". now rewrite append_empty_r.
  - destruct (IH (fold_frame m f)) as [s2 H2].
    destruct (fold_frame_extends m f) as [s1 H1].
    exists (s1 ++ s2). unfold Folding.fold_frames in H2.
    now rewrite H2, H1, append_assoc.
Qed.

(** C7. Accumulation: folding text deltas appends their fragments in
    arrival order; the three deltas of the example give "Hello, world";
    and whatever frames are folded, the text there was stays as the
    beginning of the text there is. *)
Theorem text_accumulation
  (m : AccumulatedMessage) (deltas : list string) (frames : list StreamFrame) :
  textContent (fold_frames (map TextDelta deltas) m)
  = textContent m ++ join deltas
  /\ textContent
       (fold_frames (map TextDelta ["Hello"; ", "; "world"]) empty_message)
     = "Hello, world"
  /\ exists suffix,
       textContent (fold_frames frames m) = textContent m ++ suffix.
Proof.
  split; [now rewrite fold_deltas|].
  split; [reflexivity|apply fold_frames_extends].
Qed.

(** *** Tool calls *)

Lemma records_for_cons (c : string) (r : ToolCallRecord)
      (records : list ToolCallRecord) :
  records_for c (r :: records)
  = if String.eqb (callId r) c then r :: records_for c records
    else records_for c records.
Proof. reflexivity. Qed.

Lemma upsert_other (records : list ToolCallRecord) (c c' nm args : string) :
  String.eqb c' c = false ->
  records_for c (upsert_call records c' nm args) = records_for c records.
Proof.
  intros H. induction records as [|r records IH]; cbn [Folding.upsert_call].
  - rewrite records_for_cons. cbn [callId]. now rewrite H.
  - destruct (String.eqb (callId r) c') eqn:E; rewrite !records_for_cons.
    + cbn [callId]. apply String.eqb_eq in E. now rewrite E, H.
    + now rewrite IH.
Qed.

Lemma attach_other (records : list ToolCallRecord) (c c' out : string) :
  String.eqb c' c = false ->
  records_for c (attach_output records c' out) = records_for c records.
Proof.
  intros H. induction records as [|r records IH]; cbn [attach_output].
  - rewrite records_for_cons. cbn [callId]. now rewrite H.
  - destruct (String.eqb (callId r) c') eqn:E; rewrite !records_for_cons.
    + cbn [callId]. apply String.eqb_eq in E. now rewrite E, H.
    + now rewrite IH.
Qed.

Lemma upsert_new (records : list ToolCallRecord) (c nm args : string) :
  records_for c records = [] ->
  records_for c (upsert_call records c nm args)
  = [ {| callId := c; name := nm; arguments := args; output := None |} ].
Proof.
  induction records as [|r records IH]; cbn [Folding.upsert_call];
    rewrite ?records_for_cons; intros H.
  - cbn [callId]. now rewrite String.eqb_refl.
  - destruct (String.eqb (callId r) c) eqn:E; [discriminate|].
    rewrite records_for_cons, E. now apply IH.
Qed.

Lemma attach_known (records : list ToolCallRecord) (c out : string)
      (r : ToolCallRecord) :
  records_for c records = [r] ->
  records_for c (attach_output records c out)
  = [ {| callId := callId r; name := name r; arguments := arguments r;
         output := Some out |} ].
Proof.
  induction records as [|r0 records IH]; cbn [attach_output];
    rewrite ?records_for_cons; intros H; [discriminate|].
  destruct (String.eqb (callId r0) c) eqn:E; rewrite records_for_cons.
  - injection H as -> Hrest. cbn [callId]. now rewrite E, Hrest.
  - rewrite E. now apply IH.
Qed.

Lemma attach_unknown (records : list ToolCallRecord) (c out : string) :
  records_for c records = [] ->
  attach_output records c out
  = (records ++ [ {| callId := c; name := ""; arguments := "";
                     output := Some out |} ])%list.
Proof.
  induction records as [|r records IH]; cbn [attach_output app];
    rewrite ?records_for_cons; intros H; [reflexivity|].
  destruct (String.eqb (callId r) c) eqn:E; [discriminate|].
  now rewrite IH.
Qed.

Lemma fold_frame_other (m : AccumulatedMessage) (f : StreamFrame) (c : string) :
  not_about c f = true ->
  records_for c (toolCalls (fold_frame m f)) = records_for c (toolCalls m).
Proof.
  destruct f; cbn; intros H; try reflexivity.
  - apply upsert_other. now apply negb_true_iff.
  - apply attach_other. now apply negb_true_iff.
Qed.

Lemma fold_frames_other (frames : list StreamFrame) (m : AccumulatedMessage)
      (c : string) :
  forallb (not_about c) frames = true ->
  records_for c (toolCalls (fold_frames frames m))
  = records_for c (toolCalls m).
Proof.
  revert m. induction frames as [|f frames IH]; intros m H; [reflexivity|].
  cbn in H. apply andb_prop in H as [Hf H]. cbn.
  unfold Folding.fold_frames in IH. now rewrite IH, fold_frame_other.
Qed.

(** C8. Tool-call merge: when the message holds no record for a call id,
    a call frame with that id, then frames about other things, then an
    output frame with that id leave exactly one record for the id, with
    the arguments of the call and the output; and an output frame whose id
    has no record appends a record with that output and empty arguments. *)
Theorem tool_call_merge
  (m : AccumulatedMessage) (c nm args out : string) (between : list StreamFrame) :
  records_for c (toolCalls m) = [] ->
  forallb (not_about c) between = true ->
  records_for c
    (toolCalls
       (fold_frames (FunctionCall c nm args
                       :: between ++ [FunctionCallOutput c out]) m))
  = [ {| callId := c; name := nm; arguments := args; output := Some out |} ]
  /\ toolCalls (fold_frame m (FunctionCallOutput c out))
     = (toolCalls m ++ [ {| callId := c; name := ""; arguments := "";
                            output := Some out |} ])%list.
Proof.
  intros Hm Hb. split; [|now apply attach_unknown].
  unfold Folding.fold_frames. cbn [fold_left]. rewrite fold_left_app.
  cbn [fold_left Folding.fold_frame toolCalls].
  pose proof (fold_frames_other between
                (fold_frame m (FunctionCall c nm args)) c Hb) as H.
  unfold Folding.fold_frames in H. cbn [Folding.fold_frame toolCalls] in H.
  rewrite (upsert_new _ _ nm args Hm) in H.
  now rewrite (attach_known _ _ out _ H).
Qed.

(** *** Terminal states *)

Lemma step_terminal (p : PendingRequest) (i : input) :
  terminal (state p) = true -> step p i = p.
Proof. unfold Folding.step. now destruct (state p). Qed.

Lemma run_terminal (inputs : list input) (p : PendingRequest) :
  terminal (state p) = true -> run inputs p = p.
Proof.
  revert p. induction inputs as [|i inputs IH]; intros p H; [reflexivity|].
  cbn. rewrite (step_terminal p i H). now apply IH.
Qed.

Lemma run_deltas (deltas : list string) (p : PendingRequest) :
  state p = Streaming ->
  run (map (fun d => Frame (TextDelta d)) deltas) p
  = {| state := Streaming; requestId := requestId p;
       message := fold_frames (map TextDelta deltas) (message p) |}.
Proof.
  revert p. induction deltas as [|d deltas IH]; intros p H; cbn.
  - rewrite <- H. now destruct p.
  - unfold Folding.run in IH. rewrite IH.
    + unfold Folding.step. now rewrite H.
    + unfold Folding.step. now rewrite H.
Qed.

Lemma step_ends (p : PendingRequest) (i : input) (s : status) :
  state p = Streaming -> ends_stream i = Some s ->
  step p i = set_state s p.
Proof.
  intros H E. unfold Folding.step. rewrite H.
  destruct i as [|[]| | |]; cbn in E; try discriminate;
    now injection E as <-.
Qed.

(** C9. Terminal states are final, and reaching one keeps the message.

    - In Completed or Aborted, no sequence of inputs changes the request
      or its message.
    - From Streaming, after any text deltas, an input that ends the
      stream (completion event, done sentinel, end of stream: Completed;
      cancellation, read error: Aborted) leaves the message as the
      deltas made it, its text equal to the text before followed by
      those deltas, and everything that arrives afterwards changes
      nothing. *)
Theorem terminal_state_is_final
  (p : PendingRequest) (deltas : list string) (i : input) (s : status)
  (later : list input) :
  state p = Streaming -> ends_stream i = Some s ->
  let q := run (map (fun d => Frame (TextDelta d)) deltas ++ i :: later) p in
  state q = s
  /\ terminal s = true
  /\ message q = fold_frames (map TextDelta deltas) (message p)
  /\ textContent (message q) = textContent (message p) ++ join deltas
  /\ q = run (map (fun d => Frame (TextDelta d)) deltas ++ [i]) p
  /\ forall (t : PendingRequest) (inputs : list input),
       terminal (state t) = true -> run inputs t = t.
Proof.
  intros H E q.
  assert (Ht : terminal s = true).
  { destruct i as [|[]| | |]; cbn in E; try discriminate;
      now injection E as <-. }
  set (p1 := {| state := Streaming; requestId := requestId p;
                message := fold_frames (map TextDelta deltas) (message p) |}).
  assert (H1 : run (map (fun d => Frame (TextDelta d)) deltas ++ [i]) p
               = set_state s p1).
  { unfold Folding.run. rewrite fold_left_app.
    fold (run (map (fun d => Frame (TextDelta d)) deltas) p).
    rewrite (run_deltas deltas p H). cbn [fold_left].
    exact (step_ends p1 i s eq_refl E). }
  assert (Hq : q = set_state s p1).
  { subst q. change (i :: later) with ([i] ++ later)%list.
    rewrite app_assoc. unfold Folding.run. rewrite fold_left_app.
    fold (run (map (fun d => Frame (TextDelta d)) deltas ++ [i]) p).
    rewrite H1. now apply run_terminal. }
  repeat split.
  - now rewrite Hq.
  - exact Ht.
  - now rewrite Hq.
  - rewrite Hq. cbn. now rewrite fold_deltas.
  - now rewrite Hq, H1.
  - intros t inputs. apply run_terminal.
Qed.

End Merge.

Lemma tool_call_merge_witness :
  records_for "c1"
    (toolCalls
       (fold_frames append
          (FunctionCall "c1" "get_weather" "{city: Paris}"
             :: [TextDelta "One moment."; FunctionCallOutput "c0" "[1]"]
             ++ [FunctionCallOutput "c1" "18 C"])
          with_other_call))
  = [ {| callId := "c1"; name := "get_weather"; arguments := "{city: Paris}";
         output := Some "18 C" |} ]
  /\ toolCalls (fold_frame append with_other_call
                           (FunctionCallOutput "c1" "18 C"))
     = [ {| callId := "c0"; name := "search"; arguments := "{}";
            output := Some "[]" |};
         {| callId := "c1"; name := ""; arguments := "";
            output := Some "18 C" |} ].
Proof.
  exact (tool_call_merge append with_other_call "c1" "get_weather"
           "{city: Paris}" "18 C"
           [TextDelta "One moment."; FunctionCallOutput "c0" "[1]"]
           eq_refl eq_refl).
Defined.

Lemma terminal_state_is_final_witness :
  let q := run append
             (map (fun d => Frame (TextDelta d)) ["Hel"; "lo"]
                ++ Cancel
                :: [Frame (TextDelta ", "); Frame (TextDelta "wor");
                    Frame (TextDelta "ld"); Frame ResponseCompleted; StreamEnd])
             streaming in
  state q = Aborted
  /\ textContent (message q) = "Hello"
  /\ q = {| state := Aborted; requestId := Some "req-abc123def456";
            message := {| textContent := "Hello"; toolCalls := [];
                          traceMetadata := None |} |}.
Proof.
  destruct (terminal_state_is_final append streaming ["Hel"; "lo"] Cancel
              Aborted
              [Frame (TextDelta ", "); Frame (TextDelta "wor");
               Frame (TextDelta "ld"); Frame ResponseCompleted; StreamEnd]
              eq_refl eq_refl) as (H1 & _ & _ & H3 & H4 & _).
  cbv zeta. split; [exact H1|]. split; [exact H3|]. rewrite H4. reflexivity.
Defined.

(** A whole stream from the idle state. *)
Example whole_stream :
  run append
      [FirstByte; Frame (ClientRequestId "req-1"); Frame (TextDelta "It is ");
       Frame (FunctionCall "c1" "get_weather" "{}");
       Frame (Unrecognized "response.output_item.added");
       Frame (FunctionCallOutput "c1" "18 C"); Frame (TextDelta "18 C.");
       Frame (TraceSummary "t1"); Frame (TraceSummary "t2");
       Frame DoneSentinel; Frame (TextDelta "late"); Cancel]
      start
  = {| state := Completed; requestId := Some "req-1";
       message :=
         {| textContent := "It is 18 C.";
            toolCalls := [ {| callId := "c1"; name := "get_weather";
                              arguments := "{}"; output := Some "18 C" |} ];
            traceMetadata := Some "t1" |} |}.
Proof. reflexivity. Qed.

End FoldingFacts.

(* ===================================================================== *)
(** ** The consumer and the state machine together *)
(* ===================================================================== *)

Module WireFacts.
Import Js Wire.
Local Open Scope string_scope.

(** The accumulation example end to end: three chunks, three frames,
    one text. *)
Example three_chunks_hello_world :
  map frame_of (Consumer.frames (Consumer.testStream hello_world_chunks))
  = [Folding.TextDelta "Hello"; Folding.TextDelta ", ";
     Folding.TextDelta "world"]
  /\ Folding.textContent
       (Folding.fold_frames append
          (map frame_of (Consumer.frames (Consumer.testStream hello_world_chunks)))
          Folding.empty_message)
     = "Hello, world".
Proof. vm_compute. split; reflexivity. Qed.

End WireFacts.

(* ===================================================================== *)
(** ** Further properties of the stream consumer *)
(* ===================================================================== *)

Module ConsumerMoreFacts.
Import List Js Json Consumer ConsumerFacts ConsumerMore.

(** *** The residual buffer *)

Lemma no_newline_app (a b : jsstring) :
  no_newline (a ++ b) = no_newline a && no_newline b.
Proof. apply forallb_app. Qed.

Lemma cut_spec (s : jsstring) :
  s = unlines (fst (cut s)) ++ snd (cut s)
  /\ forallb no_newline (fst (cut s)) = true
  /\ no_newline (snd (cut s)) = true.
Proof.
  induction s as [|c s (E & Hl & Hr)]; [now cbn|].
  cbn [cut]. destruct (cut s) as [ls rest]. cbn [fst snd] in *.
  unfold no_newline in *.
  destruct (N.eqb c LF) eqn:Hc; cbn [fst snd].
  - apply N.eqb_eq in Hc. subst c. repeat split.
    + cbn. now rewrite E at 1.
    + cbn. exact Hl.
    + exact Hr.
  - destruct ls as [|h t]; cbn [fst snd]; repeat split.
    + cbn in E. cbn. now rewrite E at 1.
    + cbn. now rewrite Hc, Hr.
    + cbn in E. cbn. now rewrite E at 1.
    + cbn in Hl. apply andb_prop in Hl as [Hh Ht].
      cbn. now rewrite Hc, Hh, Ht.
    + exact Hr.
Qed.

Section Stream.
Context `{TD : TextDecoder}.

Lemma testStream_eq (chunks : list (list byte)) :
  testStream chunks =
  let text := snd (decode dinit (List.concat chunks)) in
  let r := process_lines (fst (cut text)) (0, []) in
  {| decoder := fst (decode dinit (List.concat chunks));
     buffer := snd (cut text); eventCount := fst r; console := snd r |}.
Proof.
  rewrite testStream_concat. unfold testStream. cbn [fold_left].
  rewrite on_chunk_eq. reflexivity.
Qed.

(** X1. The buffer holds the unterminated tail: after any chunks, the
    text decoded so far is the lines processed, each with its newline,
    followed by the residual buffer; the buffer holds no newline; and the
    console and the counter are those of the complete lines alone. A last
    line without a newline is never processed. *)
Theorem buffer_holds_unterminated_tail (chunks : list (list byte)) :
  let st := testStream chunks in
  exists lines,
    snd (decode dinit (List.concat chunks)) = unlines lines ++ buffer st
    /\ forallb no_newline lines = true
    /\ no_newline (buffer st) = true
    /\ (eventCount st, console st) = process_lines lines (0, []).
Proof.
  cbv zeta. rewrite testStream_eq. cbv zeta. cbn [buffer eventCount console].
  set (text := snd (decode dinit (List.concat chunks))).
  destruct (cut_spec text) as (E & Hl & Hr).
  exists (fst (cut text)). repeat split; try assumption.
  now rewrite <- surjective_pairing.
Qed.

End Stream.

(** *** What one line can add *)

(** A line adds nothing, or one error, or it takes the next number and
    adds one entry under it. *)
Lemma process_line_cases (line : jsstring) (n : nat) (out : list log_entry) :
  process_line line (n, out) = (n, out)
  \/ (exists d, process_line line (n, out) = (n, out ++ [LogError d]))
  \/ (exists d, process_line line (n, out) = (S n, out ++ [LogError d]))
  \/ (exists v, process_line line (n, out) = (S n, out ++ [LogDelta (S n) v]))
  \/ (exists v, process_line line (n, out) = (S n, out ++ [LogEvent (S n) v])).
Proof.
  unfold process_line.
  destruct (negb (truthy (trim line))); [now left|].
  destruct (negb (startsWith line DATA_PREFIX)); [now left|].
  destruct (negb (truthy (trim (slice line 6)))
            || eqb (trim (slice line 6)) DONE); [now left|].
  destruct (JSON_parse (trim (slice line 6))) as [event|].
  - destruct (get_prop event (lit "type")) as [|type].
    + right; right; left. eexists; reflexivity.
    + destruct (is_string type DELTA_TYPE).
      * destruct (get_prop event (lit "delta")) as [|delta].
        -- right; right; left. eexists; reflexivity.
        -- right; right; right; left. eexists; reflexivity.
      * right; right; right; right. eexists; reflexivity.
  - right; left. eexists; reflexivity.
Qed.

Lemma numbers_app (a b : list log_entry) :
  numbers (a ++ b) = numbers a ++ numbers b.
Proof. apply flat_map_app. Qed.

Lemma ascending_snoc (l : list nat) (lo m : nat) :
  ascending lo l = true -> Forall (fun k => k < m) l -> lo < m ->
  ascending lo (l ++ [m]) = true.
Proof.
  revert lo. induction l as [|k l IH]; intros lo Ha Hf Hlo; cbn.
  - rewrite andb_true_r. now apply Nat.ltb_lt.
  - cbn in Ha. apply andb_prop in Ha as [Hk Ha]. rewrite Hk. cbn.
    inversion Hf; subst. now apply IH.
Qed.

(** What the console and the counter keep with every line. *)
Definition numbered (acc : nat * list log_entry) : Prop :=
  ascending 0 (numbers (snd acc)) = true
  /\ Forall (fun k => k <= fst acc) (numbers (snd acc))
  /\ length (filter is_frame (snd acc)) <= fst acc.

Lemma process_line_numbered (line : jsstring) (acc : nat * list log_entry) :
  numbered acc -> numbered (process_line line acc).
Proof.
  destruct acc as [n out]. intros (Ha & Hb & Hc). cbn [fst snd] in *.
  assert (Hlt : Forall (fun k => k < S n) (numbers out)).
  { eapply Forall_impl; [|exact Hb]. cbn. intros; lia. }
  assert (Hle : Forall (fun k => k <= S n) (numbers out)).
  { eapply Forall_impl; [|exact Hb]. cbn. intros; lia. }
  destruct (process_line_cases line n out)
    as [E|[[d E]|[[d E]|[[v E]|[v E]]]]]; rewrite E; unfold numbered;
    cbn [fst snd]; rewrite ?numbers_app, ?filter_app, ?length_app; cbn;
    rewrite ?app_nil_r.
  - repeat split; assumption.
  - repeat split; try assumption. lia.
  - repeat split; try assumption. lia.
  - repeat split.
    + apply ascending_snoc; [assumption|assumption|lia].
    + apply Forall_app. split; [assumption|]. constructor; [lia|constructor].
    + lia.
  - repeat split.
    + apply ascending_snoc; [assumption|assumption|lia].
    + apply Forall_app. split; [assumption|]. constructor; [lia|constructor].
    + lia.
Qed.

Lemma process_lines_numbered (lines : list jsstring) (acc : nat * list log_entry) :
  numbered acc -> numbered (process_lines lines acc).
Proof.
  revert acc. induction lines as [|l lines IH]; intros acc H; [exact H|].
  cbn. apply IH. now apply process_line_numbered.
Qed.

Lemma process_line_extends (line : jsstring) (acc : nat * list log_entry) :
  fst acc <= fst (process_line line acc)
  /\ exists added, snd (process_line line acc) = snd acc ++ added.
Proof.
  destruct acc as [n out].
  destruct (process_line_cases line n out)
    as [E|[[d E]|[[d E]|[[v E]|[v E]]]]]; rewrite E; cbn [fst snd];
    (split; [lia|]).
  - exists []. now rewrite app_nil_r.
  - now eexists.
  - now eexists.
  - now eexists.
  - now eexists.
Qed.

Lemma process_lines_extends (lines : list jsstring) (acc : nat * list log_entry) :
  fst acc <= fst (process_lines lines acc)
  /\ exists added, snd (process_lines lines acc) = snd acc ++ added.
Proof.
  revert acc. induction lines as [|l lines IH]; intros acc.
  - split; [apply le_n|]. exists []. now rewrite app_nil_r.
  - cbn. destruct (IH (process_line l acc)) as (H1 & a2 & H2).
    destruct (process_line_extends l acc) as (H3 & a1 & H4).
    split; [unfold process_lines in H1; lia|].
    exists (a1 ++ a2). unfold process_lines in H2.
    now rewrite H2, H4, app_assoc.
Qed.

Section Invariants.
Context `{TD : TextDecoder}.

(** X2. Event numbers: after any chunks, the numbers shown with the
    frames grow strictly from 1, none exceeds the event counter, and the
    counter is at least the number of frames (it may be more: a payload
    that parses to [null] is counted and then reported as an error). *)
Theorem frames_are_numbered_in_order (chunks : list (list byte)) :
  let st := testStream chunks in
  ascending 0 (numbers (frames st)) = true
  /\ Forall (fun k => 1 <= k <= eventCount st) (numbers (frames st))
  /\ length (frames st) <= eventCount st.
Proof.
  cbv zeta. rewrite testStream_eq. cbv zeta. unfold frames.
  cbn [eventCount console].
  set (r := process_lines _ _).
  assert (H : numbered r).
  { apply process_lines_numbered. repeat split; cbn; [constructor|lia]. }
  destruct H as (Ha & Hb & Hc).
  assert (En : numbers (filter is_frame (snd r)) = numbers (snd r)).
  { clear. unfold numbers. induction (snd r) as [|e l IH]; [reflexivity|].
    destruct e; cbn; now rewrite ?IH. }
  rewrite En. repeat split; try assumption.
  clear En Hc. revert Ha Hb. generalize 0 at 1 as lo.
  induction (numbers (snd r)) as [|k l IH]; intros lo Ha Hb; [constructor|].
  cbn in Ha. apply andb_prop in Ha as [Hk Ha]. apply Nat.ltb_lt in Hk.
  inversion Hb; subst. constructor; [lia|]. now apply (IH k).
Qed.

Lemma on_chunk_extends (st : state) (value : list byte) :
  eventCount st <= eventCount (on_chunk st value)
  /\ exists added, console (on_chunk st value) = console st ++ added.
Proof.
  rewrite on_chunk_eq. cbv zeta. cbn [eventCount console].
  apply (process_lines_extends _ (eventCount st, console st)).
Qed.

(** X3. The console only grows: when more chunks arrive, what was
    written before stays as the beginning of the console, and the event
    counter does not go down. *)
Theorem console_is_append_only (chunks more : list (list byte)) :
  eventCount (testStream chunks) <= eventCount (testStream (chunks ++ more))
  /\ exists added,
       console (testStream (chunks ++ more))
       = console (testStream chunks) ++ added.
Proof.
  unfold testStream. rewrite fold_left_app.
  generalize (fold_left on_chunk chunks init) as st.
  induction more as [|c more IH]; intros st; cbn [fold_left].
  - split; [apply le_n|]. exists []. now rewrite app_nil_r.
  - destruct (IH (on_chunk st c)) as (H1 & a2 & H2).
    destruct (on_chunk_extends st c) as (H3 & a1 & H4).
    split; [lia|]. exists (a1 ++ a2). now rewrite H2, H4, app_assoc.
Qed.

End Invariants.

(** *** Carriage returns *)

Lemma trimStart_snoc_white (s : jsstring) (w : char16) :
  isWhiteSpace w = true ->
  (trimStart s = [] /\ trimStart (s ++ [w]) = [])
  \/ (trimStart s <> [] /\ trimStart (s ++ [w]) = trimStart s ++ [w]).
Proof.
  intros Hw. induction s as [|c s IH]; cbn [app trimStart].
  - left. now rewrite Hw.
  - destruct (isWhiteSpace c); [exact IH|].
    right. split; [discriminate|reflexivity].
Qed.

Lemma trim_snoc_white (s : jsstring) (w : char16) :
  isWhiteSpace w = true -> trim (s ++ [w]) = trim s.
Proof.
  intros Hw. unfold trim, trimEnd.
  destruct (trimStart_snoc_white s w Hw) as [[E1 E2]|[_ E2]]; rewrite E2.
  - now rewrite E1.
  - rewrite rev_app_distr. cbn [rev app trimStart]. now rewrite Hw.
Qed.

Lemma startsWith_snoc (p l : jsstring) (c : char16) :
  ~ In c p -> startsWith (l ++ [c]) p = startsWith l p.
Proof.
  revert l. induction p as [|x p IH]; intros l Hc; [now destruct l|].
  destruct l as [|y l]; cbn.
  - destruct (N.eqb_spec x c) as [->|]; [|reflexivity].
    exfalso. apply Hc. now left.
  - rewrite IH; [reflexivity|]. intros H. apply Hc. now right.
Qed.

Lemma startsWith_length (p l : jsstring) :
  startsWith l p = true -> length p <= length l.
Proof.
  revert l. induction p as [|x p IH]; intros l H; cbn; [lia|].
  destruct l as [|y l]; [discriminate|]. cbn in H.
  apply andb_prop in H as [_ H]. apply IH in H. cbn. lia.
Qed.

Lemma process_line_cr (line : jsstring) (acc : nat * list log_entry) :
  process_line (line ++ [CR]) acc = process_line line acc.
Proof.
  unfold process_line. destruct acc as [n out].
  rewrite (trim_snoc_white line CR eq_refl).
  rewrite (startsWith_snoc DATA_PREFIX line CR).
  2:{ cbn. intros H. repeat (destruct H as [H|H]; [discriminate H|]).
      exact H. }
  destruct (negb (truthy (trim line))); [reflexivity|].
  destruct (startsWith line DATA_PREFIX) eqn:Hp; [|reflexivity].
  cbn [negb]. apply startsWith_length in Hp.
  change (length DATA_PREFIX) with 6 in Hp.
  unfold slice. rewrite skipn_app.
  replace (6 - length line) with 0 by lia.
  change (skipn 0 [CR]) with [CR].
  now rewrite (trim_snoc_white (skipn 6 line) CR eq_refl).
Qed.

(** X4. Carriage returns: lines that end in a carriage return, as a
    stream with CR LF line ends gives them, are processed exactly like
    the same lines without it. *)
Theorem carriage_returns_are_ignored
  (lines : list jsstring) (acc : nat * list log_entry) :
  process_lines (map (fun l => l ++ [CR]) lines) acc = process_lines lines acc.
Proof.
  revert acc. induction lines as [|l lines IH]; intros acc; [reflexivity|].
  cbn [map process_lines fold_left].
  rewrite process_line_cr. apply IH.
Qed.

Example crlf_stream :
  frames (testStream
            [bytes (q "data: {'type':'response.output_text.delta','delta':'a'}")
               ++ [x0d; x0a; x0d; x0a]])
  = [LogDelta 1 (Some (JString (lit "a")))].
Proof. vm_compute. reflexivity. Qed.

Example unterminated_line_is_dropped :
  frames (testStream
            [bytes (q "data: {'type':'response.output_text.delta','delta':'a'}")])
  = []
  /\ frames (testStream
               [bytes (q "data: {'type':'response.output_text.delta','delta':'a'}");
                [x0a]])
     = [LogDelta 1 (Some (JString (lit "a")))].
Proof. vm_compute. split; reflexivity. Qed.

End ConsumerMoreFacts.

(* ===================================================================== *)
(** ** Further properties of the relay *)
(* ===================================================================== *)

Module RelayMoreFacts.
Import Relay RelayMore.
Local Open Scope string_scope.

(** *** Credentials *)

Lemma prefix_append (p a b : string) :
  String.prefix p a = true -> String.prefix p (a ++ b) = true.
Proof.
  revert a. induction p as [|x p IH]; intros a H.
  { destruct a; cbn; [now destruct b|reflexivity]. }
  destruct a as [|y a]; [discriminate|]. cbn in *.
  destruct (ascii_dec x y); [now apply IH|discriminate].
Qed.

Lemma host_is_https (env : environ) (host : string) :
  get_databricks_host env = inr host ->
  String.prefix "https://" host = true /\ host <> "".
Proof.
  unfold get_databricks_host.
  destruct (String.eqb (getenv (DATABRICKS_HOST env) "") ""); [discriminate|].
  destruct (String.prefix "https://" (getenv (DATABRICKS_HOST env) "")) eqn:E;
    cbn [negb]; intros H; injection H as <-.
  - split; [exact E|]. intros H. now rewrite H in E.
  - split; [exact (prefix_append "https://" "https://" _ eq_refl)|discriminate].
Qed.

(** X5. The workspace host: [get_databricks_host] raises exactly when
    [DATABRICKS_HOST] is unset or empty; otherwise it returns the host
    with [https://] in front, unless it is there already. Nothing else is
    rewritten: a host that begins with [http://] gets the prefix too. *)
Theorem databricks_host_is_https (env : environ) :
  let configured := getenv (DATABRICKS_HOST env) "" in
  match get_databricks_host env with
  | inl e => e = ValueError "DATABRICKS_HOST must be set" /\ configured = ""
  | inr host =>
      configured <> ""
      /\ String.prefix "https://" host = true
      /\ host = (if String.prefix "https://" configured then configured
                 else "https://" ++ configured)
  end.
Proof.
  cbv zeta. unfold get_databricks_host.
  destruct (String.eqb_spec (getenv (DATABRICKS_HOST env) "") "") as [E|E].
  - now split.
  - destruct (String.prefix "https://" (getenv (DATABRICKS_HOST env) "")) eqn:P;
      cbn [negb]; repeat split; try assumption.
    exact (prefix_append "https://" "https://" _ eq_refl).
Qed.

Example http_host_is_prefixed :
  get_databricks_host {| ENV := None; DATABRICKS_HOST := Some "http://dbc.example";
                         DATABRICKS_TOKEN := None |}
  = inr "https://http://dbc.example".
Proof. reflexivity. Qed.

Lemma credentials_inv (env : environ) (request : Request) (host token : string) :
  get_credentials env request = inr (host, token) ->
  get_databricks_host env = inr host
  /\ token <> ""
  /\ (if is_local_development env
      then DATABRICKS_TOKEN env = Some token
      else headers_get (headers request) "x-forwarded-access-token"
           = Some token).
Proof.
  unfold get_credentials.
  destruct (get_databricks_host env) as [e|h]; [discriminate|].
  destruct (is_local_development env).
  - unfold get_dev_token.
    destruct (DATABRICKS_TOKEN env) as [t|]; cbn [getenv]; [|discriminate].
    destruct (String.eqb_spec t ""); [discriminate|].
    intros H. injection H as <- <-. now repeat split.
  - unfold get_user_token_from_request.
    destruct (headers_get (headers request) "x-forwarded-access-token")
      as [t|]; [|discriminate].
    destruct (String.eqb_spec t ""); [discriminate|].
    intros H. injection H as <- <-. now repeat split.
Qed.

(** X6. Where the token comes from: when [get_credentials] returns, the
    host begins with [https://], the token is not empty, and the token is
    [DATABRICKS_TOKEN] in local development and the
    [x-forwarded-access-token] header of the request otherwise. In local
    development the request plays no part, and otherwise
    [DATABRICKS_TOKEN] plays none. *)
Theorem credentials_source
  (env : environ) (request : Request) (host token : string) :
  get_credentials env request = inr (host, token) ->
  String.prefix "https://" host = true
  /\ token <> ""
  /\ (if is_local_development env
      then DATABRICKS_TOKEN env = Some token
           /\ forall other, get_credentials env other = inr (host, token)
      else headers_get (headers request) "x-forwarded-access-token"
           = Some token
           /\ forall t,
               get_credentials
                 {| ENV := ENV env; DATABRICKS_HOST := DATABRICKS_HOST env;
                    DATABRICKS_TOKEN := t |} request
               = inr (host, token)).
Proof.
  intros H. destruct (credentials_inv _ _ _ _ H) as (Hh & Ht & Hs).
  split; [apply (host_is_https env host Hh)|]. split; [exact Ht|].
  unfold get_credentials in H |- *.
  destruct (is_local_development env) eqn:D.
  - split; [exact Hs|]. intros other. exact H.
  - split; [exact Hs|]. intros t.
    unfold get_databricks_host, is_local_development in *. cbn [ENV DATABRICKS_HOST].
    now rewrite D.
Qed.

Lemma credentials_source_witness :
  String.prefix "https://" "https://dbc.example" = true
  /\ "dapi0123" <> ""
  /\ DATABRICKS_TOKEN local = Some "dapi0123"
  /\ forall other, get_credentials local other
                   = inr ("https://dbc.example", "dapi0123").
Proof.
  exact (credentials_source local {| headers := [] |} "https://dbc.example"
           "dapi0123" eq_refl).
Defined.

(** X7. The two strategies agree: [WorkspaceClientAuth] raises exactly
    when [HttpTokenAuth] raises, with the same error, and otherwise its
    client carries the host and the token that [HttpTokenAuth] returns. *)
Theorem strategies_agree (env : environ) (request : Request) :
  get_workspace_client env request
  = match get_credentials env request with
    | inl e => inl e
    | inr (host, token) =>
        inr {| client_host := host; client_token := token;
               auth_type := "pat" |}
    end.
Proof.
  unfold get_workspace_client, get_credentials.
  destruct (get_databricks_host env) as [e|host]; [reflexivity|].
  destruct (is_local_development env).
  - now destruct (get_dev_token env).
  - now destruct (get_user_token_from_request request).
Qed.

(** *** The upstream call *)

(** X8. The upstream call: an invocation calls the upstream at most
    once; the call goes to an [https://] address that ends in the
    endpoint's [/invocations], under a bearer token that is not empty,
    with the messages unchanged and [stream] set. *)
Theorem upstream_call_is_well_formed
  (env : environ) (self : DatabricksEndpointHandler) (messages : list message)
  (client_request_id : string) (request : Request) (server : call -> upstream) :
  let r := invoke_stream env self messages client_request_id request server in
  List.length (filter is_post (trace r)) <= 1
  /\ forall c, In (Post c) (trace r) ->
       String.prefix "https://" (url c) = true
       /\ (exists host, url c = host ++ "/serving-endpoints/"
                                ++ fmt (endpoint_name self) ++ "/invocations")
       /\ (exists token, token <> "" /\ authorization c = "Bearer " ++ token)
       /\ input c = messages /\ stream c = true.
Proof.
  cbv zeta. unfold invoke_stream.
  destruct (get_credentials env request) as [e|[host token]] eqn:Hc.
  - cbn. split; [lia|]. intros c [].
  - destruct (credentials_inv _ _ _ _ Hc) as (Hh & Ht & _).
    apply host_is_https in Hh as [Hp _].
    assert (Hf : forall lines,
               filter is_post
                 (flat_map (fun line => [Recv line; Yield (forward line)]) lines)
               = []).
    { induction lines as [|l lines IH]; [reflexivity|exact IH]. }
    assert (Hn : forall lines c,
               ~ In (Post c)
                 (flat_map (fun line => [Recv line; Yield (forward line)]) lines)).
    { induction lines as [|l lines IH]; intros c; [intros []|].
      cbn. intros [H|[H|H]]; try discriminate. now apply (IH c). }
    assert (Hw : forall c, c = build_call self host token messages ->
               String.prefix "https://" (url c) = true
               /\ (exists h, url c = h ++ "/serving-endpoints/"
                                     ++ fmt (endpoint_name self) ++ "/invocations")
               /\ (exists t, t <> "" /\ authorization c = "Bearer " ++ t)
               /\ input c = messages /\ stream c = true).
    { intros c ->. cbn [build_call url authorization input stream].
      split; [now apply prefix_append|]. split; [now exists host|].
      split; [now exists token|]. now split. }
    destruct (server (build_call self host token messages)) as [e|st lines f];
      cbn [trace filter is_post].
    + split; [cbn; lia|]. intros c [H|[H|[]]]; [discriminate|].
      injection H as <-. now apply Hw.
    + rewrite Hf. split; [cbn; lia|].
      intros c [H|[H|H]]; [discriminate| |now apply Hn in H].
      injection H as <-. now apply Hw.
Qed.

End RelayMoreFacts.

(* ===================================================================== *)
(** ** The first event, from the relay to the consumer *)
(* ===================================================================== *)

Module HandshakeFacts.
Import List Js Json JsonMore Consumer ConsumerFacts ConsumerMore ConsumerMoreFacts
       Relay RelayMore.

Lemma parse_chars_next (s acc : list N) :
  parse_chars s acc
  = match next_char s with
    | EndOfString r => Some (rev acc, r)
    | Char c r => parse_chars r (c :: acc)
    | BadChar => None
    end.
Proof.
  destruct s as [|c r]; [reflexivity|]. cbn [parse_chars next_char].
  destruct (c =? 34)%N; [reflexivity|].
  destruct (c =? 92)%N.
  - destruct r as [|e r1]; [reflexivity|].
    destruct (e =? 117)%N.
    + destruct r1 as [|h1 [|h2 [|h3 [|h4 r2]]]]; try reflexivity.
      now destruct (hex4 h1 h2 h3 h4).
    + now destruct (unescape e).
  - now destruct (c <? 32)%N.
Qed.

Lemma lit_app (a b : string) : lit (a ++ b)%string = lit a ++ lit b.
Proof.
  unfold lit. induction a as [|c a IH]; [reflexivity|].
  cbn. now rewrite IH.
Qed.

Lemma dumps_char_next (c : ascii) (t : list N) :
  next_char (lit (dumps_char c) ++ t) = Char (N_of_ascii c) t.
Proof.
  destruct c as [[] [] [] [] [] [] [] []]; reflexivity.
Qed.

Lemma dumps_chars_parse (s : string) (rest acc : list N) :
  parse_chars (lit (dumps_chars s) ++ 34%N :: rest) acc
  = Some (rev acc ++ lit s, rest).
Proof.
  revert acc. induction s as [|c s IH]; intros acc.
  - cbn. now rewrite app_nil_r.
  - cbn [dumps_chars]. rewrite lit_app, <- app_assoc, parse_chars_next,
      dumps_char_next, IH.
    cbn [rev]. now rewrite <- app_assoc.
Qed.


Lemma skip_ws_quote (t : list N) : skip_ws (34%N :: t) = 34%N :: t.
Proof. reflexivity. Qed.

(** A string value, after at most one space. *)
Lemma parse_value_string (f : nat) (s : string) (rest : list N) :
  parse_value (S f) (lit (dumps_str s) ++ rest) = Some (JString (lit s), rest)
  /\ parse_value (S f) (32%N :: lit (dumps_str s) ++ rest)
     = Some (JString (lit s), rest).
Proof.
  unfold dumps_str. rewrite !lit_app, <- !app_assoc.
  change (lit dquote) with [34%N]. cbn [app].
  split.
  - change (parse_value (S f) (34%N :: ?t))
      with (match parse_chars t [] with
            | Some (str, r') => Some (JString str, r')
            | None => None
            end).
    now rewrite dumps_chars_parse.
  - change (parse_value (S f) (32%N :: 34%N :: ?t))
      with (match parse_chars t [] with
            | Some (str, r') => Some (JString str, r')
            | None => None
            end).
    now rewrite dumps_chars_parse.
Qed.

Lemma dumps_str_lit (s : string) (rest : list N) :
  lit (dumps_str s) ++ rest = 34%N :: lit (dumps_chars s) ++ 34%N :: rest.
Proof.
  unfold dumps_str. rewrite !lit_app, <- !app_assoc. reflexivity.
Qed.

Lemma parse_value_object (f : nat) (t : list N) :
  next_is t 125 = None ->
  parse_value (S f) (123%N :: t) = parse_members (parse_value f) f t [].
Proof. intros H. cbn [parse_value]. cbn. now rewrite H. Qed.

(** A member whose value is a string, before a comma. *)
Lemma parse_member_comma (f g : nat) (k v : string) (rest : list N)
      (acc : list (list N * json)) :
  parse_members (parse_value (S f)) (S g)
    (lit (dumps_str k) ++ 58%N :: 32%N :: lit (dumps_str v) ++ 44%N :: rest) acc
  = parse_members (parse_value (S f)) g rest ((lit k, JString (lit v)) :: acc).
Proof.
  rewrite dumps_str_lit. cbn [parse_members].
  change (next_is (34%N :: ?t) 34) with (Some t). cbv beta iota.
  rewrite dumps_chars_parse. cbn [rev app].
  change (next_is (58%N :: ?t) 58) with (Some t). cbv beta iota.
  rewrite (proj2 (parse_value_string f v (44%N :: rest))).
  change (next_is (44%N :: ?t) 44) with (Some t).
  reflexivity.
Qed.

(** The same after a space and before the closing brace. *)
Lemma parse_member_last (f g : nat) (k v : string) (rest : list N)
      (acc : list (list N * json)) :
  parse_members (parse_value (S f)) (S g)
    (32%N :: lit (dumps_str k) ++ 58%N :: 32%N :: lit (dumps_str v)
       ++ 125%N :: rest)
    acc
  = Some (JObject (rev ((lit k, JString (lit v)) :: acc)), rest).
Proof.
  rewrite dumps_str_lit. cbn [parse_members].
  change (next_is (32%N :: 34%N :: ?t) 34) with (Some t). cbv beta iota.
  rewrite dumps_chars_parse. cbn [rev app].
  change (next_is (58%N :: ?t) 58) with (Some t). cbv beta iota.
  rewrite (proj2 (parse_value_string f v (125%N :: rest))).
  destruct (next_is (125%N :: rest) 44) eqn:E; [discriminate E|].
  reflexivity.
Qed.

Lemma event_text (id : string) (rest : list N) :
  lit (request_id_event id) ++ rest
  = 123%N :: lit (dumps_str "type") ++ 58%N :: 32%N
      :: lit (dumps_str "trace.client_request_id") ++ 44%N :: 32%N
      :: lit (dumps_str "client_request_id") ++ 58%N :: 32%N
      :: lit (dumps_str id) ++ 125%N :: rest.
Proof.
  unfold request_id_event. rewrite !lit_app.
  change (lit "}") with [125%N]. rewrite <- !app_assoc. reflexivity.
Qed.

(** The first event as [parse_value] reads it, whatever follows it. *)
Lemma parse_event_value (id : string) (g : nat) (rest : list N) :
  parse_value (S (S (S g))) (lit (request_id_event id) ++ rest)
  = Some (JObject [(lit "type", JString (lit "trace.client_request_id"));
                   (lit "client_request_id", JString (lit id))], rest).
Proof.
  rewrite event_text. rewrite parse_value_object.
  2:{ now rewrite dumps_str_lit. }
  rewrite parse_member_comma, parse_member_last. reflexivity.
Qed.

Lemma event_length (id : string) (rest : list N) :
  exists g, List.length (lit (request_id_event id) ++ rest) = S (S g).
Proof.
  rewrite event_text, dumps_str_lit. cbn [List.length].
  rewrite length_app. cbn [List.length]. eexists.
  rewrite Nat.add_succ_r. reflexivity.
Qed.

Lemma parse_event (id : string) :
  JSON_parse (lit (request_id_event id))
  = Some (JObject [(lit "type", JString (lit "trace.client_request_id"));
                   (lit "client_request_id", JString (lit id))]).
Proof.
  unfold JSON_parse. destruct (event_length id []) as [g Hl].
  rewrite app_nil_r in Hl. rewrite Hl.
  rewrite <- (app_nil_r (lit (request_id_event id))) at 1.
  rewrite parse_event_value. reflexivity.
Qed.

(** The four characters that end a frame are no JSON: the payload of the
    frame, read as a line, is rejected. *)
Lemma parse_event_with_frame_end (id : string) :
  JSON_parse (lit (request_id_event id) ++ lit FRAME_END) = None.
Proof.
  unfold JSON_parse. destruct (event_length id (lit FRAME_END)) as [g Hl].
  rewrite Hl, parse_event_value. reflexivity.
Qed.

Lemma startsWith_app (p x : jsstring) : startsWith (p ++ x) p = true.
Proof.
  induction p as [|c p IH]; [now destruct x|]. cbn.
  now rewrite N.eqb_refl, IH.
Qed.

Lemma trim_between (c d : char16) (m : jsstring) :
  isWhiteSpace c = false -> isWhiteSpace d = false ->
  trim (c :: m ++ [d]) = c :: m ++ [d].
Proof.
  intros Hc Hd. unfold trim, trimEnd. cbn [trimStart]. rewrite Hc.
  change (c :: m ++ [d]) with ((c :: m) ++ [d]).
  rewrite rev_app_distr. cbn [rev app trimStart]. rewrite Hd.
  change (d :: rev m ++ [c]) with ([d] ++ rev (c :: m)).
  rewrite rev_app_distr, rev_involutive. reflexivity.
Qed.

Lemma event_brackets (id : string) :
  exists m, lit (request_id_event id) = 123%N :: m ++ [125%N].
Proof.
  unfold request_id_event. rewrite !lit_app.
  eexists. change (lit "{") with [123%N]. change (lit "}") with [125%N].
  cbn [app]. rewrite !app_assoc. reflexivity.
Qed.

Lemma frame_text (id : string) :
  lit (request_id_frame id)
  = DATA_PREFIX ++ lit (request_id_event id) ++ lit FRAME_END.
Proof.
  change (request_id_frame id)
    with ("data: " ++ request_id_event id ++ FRAME_END)%string.
  now rewrite !lit_app.
Qed.

(** *** The frame on its way through the decoder *)

Lemma dumps_char_printable (c : ascii) :
  forallb printable (list_ascii_of_string (dumps_char c)) = true.
Proof. destruct c as [[] [] [] [] [] [] [] []]; reflexivity. Qed.

Lemma ascii_list_app (a b : string) :
  list_ascii_of_string (a ++ b)%string
  = list_ascii_of_string a ++ list_ascii_of_string b.
Proof.
  induction a as [|c a IH]; [reflexivity|]. cbn. now rewrite IH.
Qed.

Lemma dumps_chars_printable (s : string) :
  forallb printable (list_ascii_of_string (dumps_chars s)) = true.
Proof.
  induction s as [|c s IH]; [reflexivity|].
  cbn [dumps_chars]. rewrite ascii_list_app, forallb_app.
  now rewrite dumps_char_printable, IH.
Qed.

Lemma printable_no_newline (l : list ascii) :
  forallb printable l = true -> no_newline (map N_of_ascii l) = true.
Proof.
  unfold no_newline. induction l as [|c l IH]; [reflexivity|].
  cbn [forallb map]. intros H. apply andb_prop in H as [Hc Hl].
  rewrite (IH Hl), andb_true_r.
  destruct c as [[] [] [] [] [] [] [] []]; try reflexivity; discriminate Hc.
Qed.

Lemma frame_printable (id : string) :
  forallb printable (list_ascii_of_string (request_id_frame id)) = true.
Proof.
  unfold request_id_frame, dumps_str.
  rewrite !ascii_list_app, !forallb_app, !dumps_chars_printable.
  reflexivity.
Qed.

(** A printable character is one byte, which the UTF-8 decoder gives
    back as it is. *)
Lemma utf8_step_printable (bom : bool) (c : ascii) :
  printable c = true ->
  utf8_step (utf8_reset bom) (byte_of_ascii c)
  = (utf8_reset true, [N_of_ascii c]).
Proof.
  destruct bom, c as [[] [] [] [] [] [] [] []]; intros H;
    try discriminate H; reflexivity.
Qed.

Lemma bytes_cons (c : ascii) (s : string) :
  bytes (String c s) = byte_of_ascii c :: bytes s.
Proof. reflexivity. Qed.

Lemma decode_printable (s : string) (bom : bool) (acc : list N) :
  forallb printable (list_ascii_of_string s) = true ->
  snd (fold_left feed (bytes s) (utf8_reset bom, acc)) = acc ++ lit s.
Proof.
  revert bom acc. induction s as [|c s IH]; intros bom acc H.
  - cbn. now rewrite app_nil_r.
  - cbn [list_ascii_of_string forallb] in H. apply andb_prop in H as [Hc Hs].
    rewrite bytes_cons. cbn [fold_left]. unfold feed at 2. cbn [fst snd dstep utf8].
    rewrite (utf8_step_printable bom c Hc).
    rewrite (IH true _ Hs). unfold lit. cbn [list_ascii_of_string map].
    now rewrite <- app_assoc.
Qed.

Lemma cut_no_newline (s : jsstring) :
  no_newline s = true -> cut s = ([], s).
Proof.
  unfold no_newline. induction s as [|c s IH]; [reflexivity|].
  cbn [forallb cut]. intros H. apply andb_prop in H as [Hc Hs].
  rewrite (IH Hs). apply negb_true_iff in Hc. now rewrite Hc.
Qed.



(** *** Only printable characters *)

(** X10. Only printable characters: whatever the correlation id holds
    (quotes, line ends, control or non-ASCII characters), the text of the
    first event consists of characters between the space and the tilde;
    it holds no newline, so the event stays on one line of the stream. *)
Theorem request_id_event_is_printable (client_request_id : string) :
  forallb printable (list_ascii_of_string (request_id_event client_request_id))
  = true
  /\ no_newline (lit (request_id_event client_request_id)) = true.
Proof.
  assert (H : forallb printable
                (list_ascii_of_string (request_id_event client_request_id))
              = true).
  { unfold request_id_event, dumps_str.
    rewrite !ascii_list_app, !forallb_app, !dumps_chars_printable.
    reflexivity. }
  split; [exact H|]. now apply printable_no_newline.
Qed.

Example hostile_request_id :
  request_id_event (String (ascii_of_nat 34)
                      (String (ascii_of_nat 10) (String (ascii_of_nat 233) "x")))
  = q "{'type': 'trace.client_request_id', 'client_request_id': '\'\n\u00e9x'}".
Proof. vm_compute. reflexivity. Qed.

End HandshakeFacts.

(* ===================================================================== *)
(** ** Further properties of the navigation context *)
(* ===================================================================== *)

Module NavigationMoreFacts.
Import List Navigation NavigationMore.
Local Open Scope string_scope.

(** X11. Tabs and paths: the tab shown after [navigateTo] is the tab
    asked for, with or without the leading slash; and a path shows a tab
    other than home only when, one leading slash apart, it is exactly
    that tab's name. So after a new chat or a chat selection that is not
    refused, the chat tab is active. *)
Theorem active_tab_follows_navigation (tab : TabType) (st : NavState)
        (b : browser) (chatId pathname : string) :
  activeTab (fst (navigateTo tab st)) = tab
  /\ pathnameToTab (tab_name tab) = tab
  /\ (pathnameToTab pathname <> home ->
      strip_leading_slash pathname = tab_name (pathnameToTab pathname))
  /\ (isStreaming st = false ->
      activeTab (fst (handleNewChat b st)) = chat
      /\ activeTab (fst (handleChatSelect b chatId st)) = chat).
Proof.
  split; [now destruct tab|]. split; [now destruct tab|]. split.
  - unfold pathnameToTab. cbv zeta.
    destruct (String.eqb (strip_leading_slash pathname) ""
              || String.eqb (strip_leading_slash pathname) "home");
      [now intros []|].
    repeat match goal with
           | |- context [String.eqb ?a ?b] =>
               destruct (String.eqb_spec a b) as [->|]; [reflexivity|]
           end.
    now intros [].
  - intros H. unfold handleNewChat, handleChatSelect. rewrite H.
    cbn [navigateTo fst]. now destruct (innerWidth b <? 1024)%N.
Qed.

Example nested_path_shows_home :
  pathnameToTab "/chat/42" = home /\ pathnameToTab "//chat" = home
  /\ pathnameToTab "/Chat" = home /\ pathnameToTab "/" = home.
Proof. repeat split. Qed.

(** X12. A new chat id: [handleChatIdChange] makes the id current even
    while a response streams, and changes nothing else; it refetches the
    chat list exactly when no chat was current at the render that made
    the callback. So the callback of the next render does not refetch,
    while a second call of the same callback, before the provider has
    rendered again, refetches as the first did. *)
Theorem chat_id_change_refetches_when_new
  (a b : string) (rendered st : NavState) :
  let (st1, fetched1) := handleChatIdChange rendered a st in
  st1 = setCurrentChatId (Some a) st
  /\ currentChatId st1 = Some a
  /\ isStreaming st1 = isStreaming st
  /\ chats st1 = chats st
  /\ pathname st1 = pathname st
  /\ (fetched1 = [FetchChats] <-> currentChatId rendered = None)
  /\ (fetched1 = [] <-> currentChatId rendered <> None)
  /\ snd (handleChatIdChange st1 b st1) = []
  /\ snd (handleChatIdChange rendered b st1) = fetched1
  /\ currentChatId (fst (handleChatIdChange rendered b st1)) = Some b.
Proof.
  unfold handleChatIdChange. cbn [fst snd setCurrentChatId currentChatId
    isStreaming chats pathname].
  destruct (currentChatId rendered) as [c|].
  - repeat split; try discriminate; try congruence.
  - repeat split; try discriminate; try congruence.
Qed.

Example two_ids_before_a_render :
  let st := initial "/chat" in
  let (st1, fetched1) := handleChatIdChange st "c1" st in
  let (st2, fetched2) := handleChatIdChange st "c2" st1 in
  fetched1 = [FetchChats] /\ fetched2 = [FetchChats]
  /\ currentChatId st2 = Some "c2"
  /\ snd (handleChatIdChange st2 "c3" st2) = [].
Proof. repeat split. Qed.

(** *** The chat list *)

Lemma substring_length (n : nat) (s : string) :
  String.length (String.substring 0 n s) <= n.
Proof.
  revert s. induction n as [|n IH]; intros s.
  - destruct s; cbn; lia.
  - destruct s as [|c s]; cbn; [lia|]. specialize (IH s). lia.
Qed.

Lemma substring_prefix (n : nat) (s : string) :
  String.prefix (String.substring 0 n s) s = true.
Proof.
  revert s. induction n as [|n IH]; intros s.
  - destruct s; reflexivity.
  - destruct s as [|c s]; cbn; [reflexivity|].
    destruct (ascii_dec c c); [apply IH|contradiction].
Qed.

Lemma string_length_append (a b : string) :
  String.length (a ++ b) = String.length a + String.length b.
Proof. induction a as [|c a IH]; cbn; [reflexivity|now rewrite IH]. Qed.

Section FetchChats.
Variable parse_date : string -> N.


End FetchChats.

Example short_message_preview :
  preview (toChat (fun _ => 0%N)
             {| chat_id := "c1"; chat_title := "Greeting";
                messages := [ {| content := "Hello" |}; {| content := "Hi" |} ];
                updated_at := "2025-01-01T00:00:00" |})
  = "Hi...".
Proof. reflexivity. Qed.

(** *** The collapsed side bar *)

Lemma getItem_setItem (storage : Storage) (key value : string) :
  getItem (setItem storage key value) key = Some value.
Proof. unfold setItem. cbn. now rewrite String.eqb_refl. Qed.

(** X14. The collapsed side bar is remembered: what
    [handleSetSidebarCollapsed] stores is what the provider reads back
    when it mounts again, over whatever was stored before; with nothing
    stored the state keeps its default, and a stored value other than
    ["true"] reads as not collapsed. Nothing else of the state changes. *)
Theorem sidebar_collapsed_round_trip
  (collapsed : bool) (st fresh : NavState) (storage : Storage) (other : string) :
  let (st1, storage1) := handleSetSidebarCollapsed collapsed st storage in
  isSidebarCollapsed st1 = collapsed
  /\ loadSidebarCollapsed storage1 fresh = setIsSidebarCollapsed collapsed fresh
  /\ isSidebarCollapsed (loadSidebarCollapsed storage1 fresh) = collapsed
  /\ loadSidebarCollapsed [] fresh = fresh
  /\ (other <> "true" ->
      isSidebarCollapsed
        (loadSidebarCollapsed (setItem storage "sidebarCollapsed" other) fresh)
      = false)
  /\ st1 = setIsSidebarCollapsed collapsed st.
Proof.
  unfold handleSetSidebarCollapsed, loadSidebarCollapsed.
  rewrite !getItem_setItem. cbn [isSidebarCollapsed setIsSidebarCollapsed getItem].
  repeat split; try (now destruct collapsed).
  intros H. now apply String.eqb_neq.
Qed.

End NavigationMoreFacts.

(* ===================================================================== *)
(** ** Properties of the chat routes and the top bar *)
(* ===================================================================== *)

Module RoutesFacts.
Import List Js Json Routes.

Lemma GET_relays (backend_url id : string) (server : backend_call -> backend) :
  GET backend_url id server
  = relay_answer
      (server {| call_url := chat_url backend_url id; call_method := "GET" |})
      (error_body "Chat not found") (error_body "Failed to fetch chat").
Proof. reflexivity. Qed.

Lemma DELETE_relays (backend_url id : string) (server : backend_call -> backend) :
  DELETE backend_url id server
  = relay_answer
      (server {| call_url := chat_url backend_url id; call_method := "DELETE" |})
      (error_body "Failed to delete chat") (error_body "Failed to delete chat").
Proof. reflexivity. Qed.

Lemma POST_clear_relays (backend_url : string) (server : backend_call -> backend) :
  POST_clear backend_url server
  = relay_answer
      (server {| call_url := (backend_url ++ "/api/chats")%string;
                 call_method := "DELETE" |})
      (failure_body "Failed to clear chat history")
      (failure_body "Failed to clear chat history").
Proof. reflexivity. Qed.

(** What [NextResponse.json] makes of a status that is no success. *)
Lemma refusal_status (refusal : json) (st : nat) :
  response_ok st = false ->
  (NextResponse_json refusal st = Some {| status := st; data := refusal |}
   /\ 200 <= st <= 599 /\ st <> 304 /\ null_body_status st = false)
  \/ (NextResponse_json refusal st = None
      /\ (st = 304 \/ ~ 200 <= st <= 599)).
Proof.
  unfold response_ok, NextResponse_json, null_body_status. intros Hok.
  destruct (Nat.leb_spec 200 st) as [Hlo|Hlo]; cbn [andb] in *;
    [|right; split; [reflexivity|right; lia]].
  destruct (Nat.leb_spec st 599) as [Hhi|Hhi];
    [|right; split; [reflexivity|right; lia]].
  apply Nat.leb_gt in Hok.
  destruct (Nat.eqb_spec st 304) as [->|H304].
  - right. split; [reflexivity|now left].
  - left.
    destruct (Nat.eqb_spec st 101); [lia|].
    destruct (Nat.eqb_spec st 103); [lia|].
    destruct (Nat.eqb_spec st 204); [lia|].
    destruct (Nat.eqb_spec st 205); [lia|].
    repeat split; assumption.
Qed.

Lemma relay_answer_passes (answer : backend) (refusal caught : json) :
  passes_through (relay_answer answer refusal caught) answer refusal caught.
Proof.
  unfold passes_through, relay_answer. cbv zeta.
  destruct answer as [|st b].
  - cbn [response status logged]. repeat split; try discriminate; try reflexivity.
    intros (st & j & E & _). discriminate E.
  - destruct (response_ok st) eqn:Hok; cbn [negb].
    + assert (H304 : st <> 304) by (intros ->; discriminate Hok).
      destruct b as [j|].
      * change (NextResponse_json j 200)
          with (Some {| status := 200; data := j |}).
        cbn [response status logged]. repeat split; try discriminate.
        -- intros _. now exists st, j.
        -- intros st' j' E _. now injection E as <- <-.
        -- intros st' b' E Hno. injection E as <- <-. congruence.
        -- intros b' E. injection E as E _. contradiction.
      * cbn [response status logged]. repeat split; try discriminate.
        -- intros (st' & j' & E & _). discriminate E.
        -- intros st' b' E Hno. injection E as <- <-. congruence.
    + destruct (refusal_status refusal st Hok)
        as [(E & Hr & H304 & Hn)|(E & Hbad)]; rewrite E;
        cbn [response status logged].
      * assert (Hin : ((200 <=? st) && (st <=? 599))%nat = true).
        { apply andb_true_intro. split; apply Nat.leb_le; lia. }
        repeat split; try discriminate; try assumption.
        -- rewrite Hok. discriminate.
        -- intros (st' & j' & E' & Hok'). injection E' as <- _. congruence.
        -- intros st' j' E' Hok'. injection E' as <- _. congruence.
        -- intros st' b' E' _ _ _. now injection E' as <- _.
        -- intros b' E'. injection E' as E' _. contradiction.
        -- intros st' E' Hok'. injection E' as <- _. congruence.
      * repeat split; try discriminate; try reflexivity.
        -- intros (st' & j' & E' & Hok'). injection E' as <- _. congruence.
        -- intros st' j' E' Hok'. injection E' as <- _. congruence.
        -- intros st' b' E' _ Hr Hn. injection E' as <- _.
           destruct Hbad as [->|Hbad]; [contradiction|contradiction].
Qed.

(** X15. The chat routes: [GET], [DELETE] and the [POST] that clears the
    history answer with a status between 200 and 599 that allows a body;
    the status is a success exactly when the backend answered with a
    success and a body that decodes, and then the handler answers 200
    with the decoded value, serialised anew; a refusal of the backend
    keeps its status and gets the route's fixed error value, except for
    304, which allows no body: there, as after a throw and after a
    success whose body does not decode, the handler writes to the error
    console and answers 500 with its failure value, and it writes to the
    error console in no other case. So a successful delete that comes
    back without a JSON body is answered with 500. *)
Theorem chat_routes_pass_through
  (backend_url id : string) (server : backend_call -> backend) :
  passes_through
    (GET backend_url id server)
    (server {| call_url := chat_url backend_url id; call_method := "GET" |})
    (error_body "Chat not found") (error_body "Failed to fetch chat")
  /\ passes_through
       (DELETE backend_url id server)
       (server {| call_url := chat_url backend_url id;
                  call_method := "DELETE" |})
       (error_body "Failed to delete chat") (error_body "Failed to delete chat")
  /\ passes_through
       (POST_clear backend_url server)
       (server {| call_url := (backend_url ++ "/api/chats")%string;
                  call_method := "DELETE" |})
       (failure_body "Failed to clear chat history")
       (failure_body "Failed to clear chat history").
Proof.
  rewrite GET_relays, DELETE_relays, POST_clear_relays.
  split; [|split]; apply relay_answer_passes.
Qed.

Example delete_without_body :
  DELETE "http://localhost:8000" "c1" (fun _ => BackendResponse 204 None)
  = {| response := {| status := 500;
                      data := error_body "Failed to delete chat" |};
       logged := true |}.
Proof. reflexivity. Qed.

Example not_modified_is_answered_500 :
  GET "http://localhost:8000" "c1" (fun _ => BackendResponse 304 None)
  = {| response := {| status := 500;
                      data := error_body "Failed to fetch chat" |};
       logged := true |}
  /\ GET "http://localhost:8000" "c1" (fun _ => BackendResponse 404 None)
     = {| response := {| status := 404; data := error_body "Chat not found" |};
          logged := false |}.
Proof. split; reflexivity. Qed.

(** *** The display name *)

Lemma split_first (s : jsstring) (sep : char16) :
  exists h t,
    split s sep = h :: t
    /\ forallb (fun c => negb (N.eqb c sep)) h = true
    /\ (t = [] /\ s = h \/ exists rest, s = h ++ sep :: rest).
Proof.
  induction s as [|c s (h & t & E & Hh & Hs)]; cbn [split].
  - exists [], []. repeat split. now left.
  - destruct (N.eqb c sep) eqn:Hc.
    + apply N.eqb_eq in Hc. subst c. exists [], (split s sep).
      repeat split. right. now exists s.
    + rewrite E. exists (c :: h), t. repeat split.
      * cbn. now rewrite Hc.
      * destruct Hs as [[-> ->]|[rest ->]]; [now left|right; now exists rest].
Qed.

(** X16. The display name: the name shown for a user is what stands
    before the first [@] of the user's name; it holds no [@]; it is the
    whole name when the name has none, and it is empty for a name that
    begins with [@] and for a user that is not known. *)
Theorem display_name_is_local_part (u : jsstring) :
  let d := displayName (Some u) in
  forallb (fun c => negb (N.eqb c AT)) d = true
  /\ (u = d \/ exists rest, u = d ++ AT :: rest)
  /\ (forallb (fun c => negb (N.eqb c AT)) u = true -> d = u)
  /\ displayName (Some (AT :: u)) = []
  /\ displayName None = [].
Proof.
  cbv zeta. unfold displayName.
  destruct (split_first u AT) as (h & t & E & Hh & Hs). rewrite E.
  cbn [hd_error]. assert (Eo : or_empty (Some h) = h) by now destruct h.
  rewrite Eo. split; [exact Hh|]. split.
  - destruct Hs as [[_ ->]|[rest ->]]; [now left|right; now exists rest].
  - split; [|split; reflexivity].
    intros Hu. destruct Hs as [[_ ->]|[rest ->]]; [reflexivity|].
    rewrite forallb_app in Hu. apply andb_prop in Hu as [_ Hu].
    cbn in Hu. discriminate Hu.
Qed.

Example display_name_of_email :
  displayName (Some (lit "ada.lovelace@example.com")) = lit "ada.lovelace"
  /\ displayName (Some (lit "a@b@c")) = lit "a".
Proof. vm_compute. split; reflexivity. Qed.

End RoutesFacts.

(* ===================================================================== *)
(** ** Further properties of the configuration loader *)
(* ===================================================================== *)

Module ConfigMoreFacts.
Import List Js Json Config ConfigFacts.

(** What every step keeps: each fetch issued is still awaited or has
    written its line to the console, and each was issued by a call. *)
Lemma step_accounts (st : module_state) (e : event) (calls : nat) :
  length (console st) + awaiting_fetch st + awaiting_json st = fetches st ->
  fetches st <= calls ->
  let st' := fst (step st e) in
  length (console st') + awaiting_fetch st' + awaiting_json st' = fetches st'
  /\ fetches st' <= (if is_call e then S calls else calls).
Proof.
  intros H1 H2. cbv zeta.
  destruct e as [|[[|]|]|[c|]| |]; cbn [step is_call].
  - destruct (ToBoolean (cachedConfig st)); cbn; lia.
  - destruct (awaiting_fetch st) eqn:E; cbn; lia.
  - destruct (awaiting_fetch st) eqn:E; cbn; rewrite ?length_app; cbn; lia.
  - destruct (awaiting_fetch st) eqn:E; cbn; rewrite ?length_app; cbn; lia.
  - destruct (awaiting_json st) eqn:E; cbn; rewrite ?length_app; cbn; lia.
  - destruct (awaiting_json st) eqn:E; cbn; rewrite ?length_app; cbn; lia.
  - cbn. lia.
  - cbn. lia.
Qed.

Lemma run_accounts (events : list event) (st : module_state) (calls : nat) :
  length (console st) + awaiting_fetch st + awaiting_json st = fetches st ->
  fetches st <= calls ->
  let st' := fst (run events st) in
  length (console st') + awaiting_fetch st' + awaiting_json st' = fetches st'
  /\ fetches st' <= calls + length (filter is_call events).
Proof.
  revert st calls. induction events as [|e events IH]; intros st calls H1 H2.
  - cbn. lia.
  - cbn [run]. destruct (step_accounts st e calls H1 H2) as [H3 H4].
    destruct (step st e) as [st1 o] eqn:E. cbn [fst] in H3, H4.
    destruct (IH st1 _ H3 H4) as [H5 H6].
    destruct (run events st1) as [st2 os]. cbn [fst] in *.
    split; [exact H5|]. cbn [filter]. destruct (is_call e); cbn [length]; lia.
Qed.

(** Calls that come one after another fetch only from a falsy cache. *)
Lemma schedule_fetches (calls : list call) (st : module_state) :
  idle st ->
  fetches (fst (run (schedule calls) st))
  <= fetches st
     + (if ToBoolean (cachedConfig st) then 0 else 1)
     + length (filter is_reset_call calls)
     + length (filter is_falsy_load calls).
Proof.
  revert st. induction calls as [|c calls IH]; intros st Hi.
  - cbn. lia.
  - rewrite schedule_cons, (step_call c st Hi).
    destruct c as [net| |]; cbn [filter is_reset_call is_falsy_load].
    + specialize (IH _ (loadConfig_idle net st Hi)).
      destruct (ToBoolean (cachedConfig st)) eqn:E.
      * rewrite (loadConfig_cached net st E) in *. cbn [snd] in *.
        rewrite E in IH. destruct (negb (ToBoolean (resolved net)));
          cbn [length]; lia.
      * destruct (loadConfig_first net st E) as (_ & H2 & H3 & _).
        rewrite H2, H3 in IH.
        destruct (ToBoolean (resolved net)); cbn [negb length] in *; lia.
    + specialize (IH st Hi). lia.
    + specialize (IH (resetConfig st) Hi).
      cbn [resetConfig cachedConfig fetches ToBoolean length] in *.
      destruct (ToBoolean (cachedConfig st)); lia.
Qed.

(** X17. Fetches, resets and the console: after [resetConfig], a call of
    [loadConfig] that is awaited alone goes to the network once and
    returns what it finds there, whatever was cached before. With calls
    that come one after another, the configuration is fetched at most
    once, once more for each [resetConfig], and once more for each
    [loadConfig] that resolved with a falsy body. In whatever order the
    steps of overlapping calls occur, every fetch issued is still awaited
    or has written exactly one line to the console, and there are no more
    fetches than calls of [loadConfig]. *)
Theorem fetches_follow_resets
  (net : fetch_result) (st : module_state)
  (calls : list call) (events : list event) :
  fst (loadConfig net (resetConfig st)) = resolved net
  /\ fetches (snd (loadConfig net (resetConfig st))) = S (fetches st)
  /\ fetches (fst (run (schedule calls) init))
     <= 1 + length (filter is_reset_call calls)
        + length (filter is_falsy_load calls)
  /\ (let st' := fst (run events init) in
      length (console st') + awaiting_fetch st' + awaiting_json st'
      = fetches st'
      /\ fetches st' <= length (filter is_call events)).
Proof.
  destruct (loadConfig_first net (resetConfig st) eq_refl) as (H1 & _ & H3 & _).
  split; [exact H1|]. split; [exact H3|]. split.
  - pose proof (schedule_fetches calls init (conj eq_refl eq_refl)) as H.
    cbn [init fetches cachedConfig ToBoolean] in H. lia.
  - exact (run_accounts events init 0 eq_refl (le_n 0)).
Qed.

Example overlapping_calls_fetch_twice :
  let st := fst (run [Calls; Calls; FetchSettles None] init) in
  fetches st = 2 /\ awaiting_fetch st = 1 /\ length (console st) = 1.
Proof. repeat split. Qed.

End ConfigMoreFacts.
